(** * A shallow embedding of [bt_scan_ll.py], the BLE advertisement scanner

    The development follows the source file top to bottom:

    - [Py]       the Python values and built-ins the scanner relies on
                 (exceptions, byte strings, slices, [range], text
                 formatting, [struct.unpack], UTF-8 decoding, [or]);
    - [Decoder]  [_decode_name], [_decode_services], [_decode_manufacturer];
    - [Registry] the [devices_found] dictionary and the [_irq] handler;
    - [Session]  [scan_devices], run against a scripted radio and clock;
    - [Report]   [sorted] and the ranking of [print_results] and
                 [print_summary];
    - [Format]   the AD-structure format, as a reference to state what the
                 decoders return;
    - [Examples] concrete buffers, reports and radios;
    - [Detail]   [print_results];
    - [Scans]    [__init__], [quick_scan], [standard_scan], [long_scan];
    - [Continuous] [continuous_scan];
    - [Notions]  what the further properties (X1 to X17) are stated with;

    and then the facts, module by module, with the properties of the
    specification (C1 to C10) stated after the lemmas they rest on.

    The language is read as Python 3: slices clamp to the length of the
    sequence, indexing past the end raises, the UTF-8 codec is strict, a
    [dict] iterates in insertion order and [sorted] is stable.  The modules
    [bluetooth], [machine], [time] and [asyncio] are the outside world: a
    session runs against a script of what they answer.

    Conventions.  A [bytes] object is a [list byte].  A [str] is kept as the
    Rocq [string] of its UTF-8 encoding, which determines the text.  Indices
    that the source only ever increases from [0] are natural numbers; signal
    strengths are integers.  A dictionary is an association list in insertion
    order.  Every [while] loop is run on fuel, and running out of fuel is a
    result of its own, so that "returns a value" always excludes both an
    escaping exception and a loop that does not end. *)

From Stdlib Require Import String Ascii Strings.Byte DecimalString.
From Stdlib Require Import Arith ZArith NArith Lia Bool List.
From Stdlib Require Import Sorting.Sorted Sorting.Permutation.
Import ListNotations.

Set Implicit Arguments.

(* ===================================================================== *)
(** * Python values and built-ins *)
(* ===================================================================== *)

Module Py.

(** The exceptions that can occur in the scanner.  [KeyboardInterrupt] and
    [CancelledError] derive from [BaseException] only. *)
Inductive exn : Type :=
| IndexError
| UnicodeError
| StructError
| OSError (errno : Z)
| KeyboardInterrupt
| CancelledError.

(** [isinstance(e, Exception)] *)
Definition is_Exception (e : exn) : bool :=
  match e with
  | KeyboardInterrupt | CancelledError => false
  | _ => true
  end.

(** The result of evaluating an expression. *)
Inductive result (A : Type) : Type :=
| Ok (a : A)
| Err (e : exn).
Arguments Ok {A} a.
Arguments Err {A} e.

(** How control leaves a block of statements. *)
Inductive flow (R : Type) : Type :=
| Falls               (* control runs off the end of the block, or a [break] *)
| Returns (r : R)     (* a [return] statement ran *)
| Throws (e : exn)    (* an exception leaves the block *)
| Stalls.             (* the fuel of a [while] loop ran out *)
Arguments Falls {R}.
Arguments Returns {R} r.
Arguments Throws {R} e.
Arguments Stalls {R}.

(** What the caller of a function observes. *)
Inductive outcome (A : Type) : Type :=
| Return (a : A)
| Raise (e : exn)
| Diverge.
Arguments Return {A} a.
Arguments Raise {A} e.
Arguments Diverge {A}.

Definition bindf {A R : Type} (r : result A) (k : A -> flow R) : flow R :=
  match r with
  | Ok a => k a
  | Err e => Throws e
  end.

Notation "x <-- r ;; k" := (bindf r (fun x => k))
  (at level 61, r at next level, right associativity).

Definition bytes := list byte.

(** [b[i]] for [i >= 0]. *)
Definition getitem (b : bytes) (i : nat) : result nat :=
  match nth_error b i with
  | Some x => Ok (Byte.to_nat x)
  | None => Err IndexError
  end.

(** [b[lo:hi]] for [lo, hi >= 0]: both ends are clamped to the length. *)
Definition slice {A : Type} (b : list A) (lo hi : nat) : list A :=
  firstn (hi - lo) (skipn lo b).

(** [b[::-1]] *)
Definition reversed (b : bytes) : bytes := rev b.

(** [range(start, stop, step)] for [step > 0]. *)
Definition range (start stop step : nat) : list nat :=
  map (fun k => start + k * step) (seq 0 ((stop - start + step - 1) / step)).

(** ** Hexadecimal text *)

Definition hex_digit (upper : bool) (d : N) : ascii :=
  let digits := if upper then "0123456789ABCDEF"%string
                else "0123456789abcdef"%string in
  match String.get (N.to_nat d) digits with
  | Some c => c
  | None => "?"%char
  end.

(** The digits of [n], most significant first, without padding. *)
Fixpoint hex_of (fuel : nat) (upper : bool) (n : N) : string :=
  match fuel with
  | O => EmptyString
  | S fuel' =>
      if (n <? 16)%N then String (hex_digit upper n) EmptyString
      else (hex_of fuel' upper (n / 16) ++
            String (hex_digit upper (n mod 16)) EmptyString)%string
  end.

Fixpoint zeros (k : nat) : string :=
  match k with
  | O => EmptyString
  | S k' => String "0"%char (zeros k')
  end.

(** [format(n, '0<width>X')] and [format(n, '0<width>x')] for [n >= 0]:
    at least [width] digits, padded with zeros on the left. *)
Definition format_hex (upper : bool) (width : nat) (n : N) : string :=
  let s := hex_of (S (N.to_nat (N.log2 n))) upper n in
  (zeros (width - String.length s) ++ s)%string.

(** [bytes.hex()]: two lower-case digits per byte. *)
Definition hex (b : bytes) : string :=
  String.concat EmptyString
    (map (fun x => format_hex false 2 (Byte.to_N x)) b).

(** [sep.join(parts)] *)
Definition join (sep : string) (parts : list string) : string :=
  String.concat sep parts.

(** [struct.unpack('<H', b)[0]]: exactly two bytes, little-endian. *)
Definition unpack_H (b : bytes) : result N :=
  match b with
  | [lo; hi] => Ok (Byte.to_N lo + 256 * Byte.to_N hi)%N
  | _ => Err StructError
  end.

(** ** UTF-8 *)

Definition in_range (lo hi : nat) (x : byte) : bool :=
  (lo <=? Byte.to_nat x) && (Byte.to_nat x <=? hi).

Definition cont (x : byte) : bool := in_range 128 191 x.

(** Well-formed UTF-8, as the strict codec accepts it: shortest form only,
    no surrogates, nothing above U+10FFFF. *)
Fixpoint utf8_valid (b : bytes) : bool :=
  match b with
  | [] => true
  | b0 :: r0 =>
      if in_range 0 127 b0 then utf8_valid r0
      else
        match r0 with
        | [] => false
        | b1 :: r1 =>
            if in_range 194 223 b0 then cont b1 && utf8_valid r1
            else
              match r1 with
              | [] => false
              | b2 :: r2 =>
                  if in_range 224 239 b0 then
                    (if Byte.to_nat b0 =? 224 then in_range 160 191 b1
                     else if Byte.to_nat b0 =? 237 then in_range 128 159 b1
                     else cont b1)
                    && cont b2 && utf8_valid r2
                  else
                    match r2 with
                    | [] => false
                    | b3 :: r3 =>
                        in_range 240 244 b0
                        && (if Byte.to_nat b0 =? 240 then in_range 144 191 b1
                            else if Byte.to_nat b0 =? 244 then in_range 128 143 b1
                            else cont b1)
                        && cont b2 && cont b3 && utf8_valid r3
                    end
              end
        end
  end.

(** [b.decode('utf-8')] *)
Definition decode_utf8 (b : bytes) : result string :=
  if utf8_valid b then Ok (string_of_list_byte b) else Err UnicodeError.

(** [x or default] for a value that is [None] or a [str]: [None] and the
    empty string are the two falsy cases. *)
Definition or_else (x : option string) (default : string) : string :=
  match x with
  | None => default
  | Some EmptyString => default
  | Some s => s
  end.

End Py.

Import Py.

(* ===================================================================== *)
(** * The advertising-data decoders *)
(* ===================================================================== *)

Module Decoder.

(** The [while] loop of [_decode_name]. *)
Fixpoint name_loop (fuel : nat) (adv_data : bytes) (i : nat)
  : flow (option string) :=
  match fuel with
  | O => Stalls
  | S fuel' =>
      if i <? length adv_data then
        length_ <-- getitem adv_data i ;;
        if length_ =? 0 then Falls
        else
          ad_type <-- getitem adv_data (i + 1) ;;
          if ad_type =? 0x09 then
            s <-- decode_utf8 (slice adv_data (i + 2) (i + 1 + length_)) ;;
            Returns (Some s)
          else if ad_type =? 0x08 then
            s <-- decode_utf8 (slice adv_data (i + 2) (i + 1 + length_)) ;;
            Returns (Some s)
          else name_loop fuel' adv_data (i + 1 + length_)
      else Falls
  end.

(** [try: ... except: pass] followed by [return None]. *)
Definition _decode_name (adv_data : bytes) : outcome (option string) :=
  match name_loop (S (length adv_data)) adv_data 0 with
  | Returns r => Return r
  | Falls => Return None
  | Throws _ => Return None
  | Stalls => Diverge
  end.

(** The [while] loop of [_decode_manufacturer]. *)
Fixpoint manufacturer_loop (fuel : nat) (adv_data : bytes) (i : nat)
  : flow (option bytes) :=
  match fuel with
  | O => Stalls
  | S fuel' =>
      if i <? length adv_data then
        length_ <-- getitem adv_data i ;;
        if length_ =? 0 then Falls
        else
          ad_type <-- getitem adv_data (i + 1) ;;
          if ad_type =? 0xFF then
            Returns (Some (slice adv_data (i + 2) (i + 1 + length_)))
          else manufacturer_loop fuel' adv_data (i + 1 + length_)
      else Falls
  end.

Definition _decode_manufacturer (adv_data : bytes) : outcome (option bytes) :=
  match manufacturer_loop (S (length adv_data)) adv_data 0 with
  | Returns r => Return r
  | Falls => Return None
  | Throws _ => Return None
  | Stalls => Diverge
  end.

(** ["0x{uuid:04X}"] *)
Definition uuid16_str (uuid : N) : string :=
  ("0x" ++ format_hex true 4 uuid)%string.

(** The ['-'.join([...])] expression that renders a 128-bit UUID. *)
Definition uuid128_str (uuid_bytes : bytes) : string :=
  join "-" [ hex (reversed (slice uuid_bytes 12 16));
             hex (reversed (slice uuid_bytes 10 12));
             hex (reversed (slice uuid_bytes 8 10));
             hex (reversed (slice uuid_bytes 6 8));
             hex (reversed (slice uuid_bytes 0 6)) ].

(** The body of [for j in range(i + 2, i + 1 + length, 2)], over the values
    [js] of [j]; [services] is the list being appended to. *)
Fixpoint for_uuid16 (adv_data : bytes) (js : list nat) (services : list string)
  : list string * result unit :=
  match js with
  | [] => (services, Ok tt)
  | j :: js' =>
      if j + 1 <? length adv_data then
        match unpack_H (slice adv_data j (j + 2)) with
        | Ok uuid => for_uuid16 adv_data js' (services ++ [uuid16_str uuid])
        | Err e => (services, Err e)
        end
      else for_uuid16 adv_data js' services
  end.

(** The body of [for j in range(i + 2, i + 1 + length, 16)]. *)
Fixpoint for_uuid128 (adv_data : bytes) (js : list nat) (services : list string)
  : list string :=
  match js with
  | [] => services
  | j :: js' =>
      if j + 15 <? length adv_data then
        let uuid_bytes := slice adv_data j (j + 16) in
        for_uuid128 adv_data js' (services ++ [uuid128_str uuid_bytes])
      else for_uuid128 adv_data js' services
  end.

(** The [while] loop of [_decode_services]; the first component is the
    [services] list as it stands when control leaves the loop. *)
Fixpoint services_loop (fuel : nat) (adv_data : bytes) (i : nat)
  (services : list string) : list string * flow unit :=
  match fuel with
  | O => (services, Stalls)
  | S fuel' =>
      if i <? length adv_data then
        match getitem adv_data i with
        | Err e => (services, Throws e)
        | Ok length_ =>
            if length_ =? 0 then (services, Falls)
            else
              match getitem adv_data (i + 1) with
              | Err e => (services, Throws e)
              | Ok ad_type =>
                  if (ad_type =? 0x02) || (ad_type =? 0x03) then
                    match for_uuid16 adv_data
                            (range (i + 2) (i + 1 + length_) 2) services with
                    | (services', Ok _) =>
                        services_loop fuel' adv_data (i + 1 + length_) services'
                    | (services', Err e) => (services', Throws e)
                    end
                  else if (ad_type =? 0x06) || (ad_type =? 0x07) then
                    services_loop fuel' adv_data (i + 1 + length_)
                      (for_uuid128 adv_data
                         (range (i + 2) (i + 1 + length_) 16) services)
                  else services_loop fuel' adv_data (i + 1 + length_) services
              end
        end
      else (services, Falls)
  end.

(** [try: ... except: pass] followed by [return services]. *)
Definition _decode_services (adv_data : bytes) : outcome (list string) :=
  match services_loop (S (length adv_data)) adv_data 0 [] with
  | (services, Stalls) => Diverge
  | (services, _) => Return services
  end.

End Decoder.


Import Decoder.

(* ===================================================================== *)
(** * The device registry and the interrupt handler *)
(* ===================================================================== *)

Module Registry.

(** The dictionary stored per address by [_irq]. *)
Record device : Type := {
  name : string;
  rssi : Z;
  addr_type : string;
  connectable : bool;
  services : list string;
  manufacturer_data : option bytes;
  adv_type : Z
}.

(** [devices_found]: keys in insertion order. *)
Definition registry := list (string * device).

(** [devices_found.get(mac)] *)
Fixpoint lookup (mac : string) (d : registry) : option device :=
  match d with
  | [] => None
  | (k, v) :: d' => if String.eqb mac k then Some v else lookup mac d'
  end.

(** [mac in devices_found] *)
Definition contains (mac : string) (d : registry) : bool :=
  match lookup mac d with
  | Some _ => true
  | None => false
  end.

(** [devices_found[mac] = v]: a present key keeps its place, a new key goes
    last. *)
Fixpoint setitem (mac : string) (v : device) (d : registry) : registry :=
  match d with
  | [] => [(mac, v)]
  | (k, u) :: d' =>
      if String.eqb mac k then (k, v) :: d' else (k, u) :: setitem mac v d'
  end.

(** The attributes of the scanner object that the methods read and write;
    [led] tells whether [self.led] is a pin rather than [None]. *)
Record scanner : Type := {
  devices_found : registry;
  scan_complete : bool;
  led : bool
}.

(** The tuple handed to the handler with a scan result. *)
Record report : Type := {
  r_addr_type : Z;
  r_addr : bytes;
  r_adv_type : Z;
  r_rssi : Z;
  r_adv_data : bytes
}.

Definition nl : string := String "010"%char EmptyString.

(** [str(n)] for an integer. *)
Definition str_int (n : Z) : string :=
  DecimalString.NilZero.string_of_int (Z.to_int n).

(** [':'.join(['{:02X}'.format(b) for b in addr])] *)
Definition mac_of (addr : bytes) : string :=
  join ":" (map (fun x => format_hex true 2 (Byte.to_N x)) addr).

(** What a decoder call contributes to an expression.  The decoders return
    on every buffer ([decode_name_returns], [decode_services_returns] and
    [decode_manufacturer_returns] below), so [otherwise] is never used. *)
Definition value_of {A : Type} (o : outcome A) (otherwise : A) : A :=
  match o with
  | Return a => a
  | _ => otherwise
  end.

(** [_irq(event, data)]: the scanner afterwards and the text printed. *)
Definition _irq (self : scanner) (event : Z) (data : report)
  : scanner * list string :=
  if (event =? 5)%Z then
    let mac_addr := mac_of (r_addr data) in
    if negb (contains mac_addr (devices_found self)) then
      let name_ := or_else (value_of (_decode_name (r_adv_data data)) None)
                     "Unknown" in
      let services_ := value_of (_decode_services (r_adv_data data)) [] in
      let manufacturer := value_of (_decode_manufacturer (r_adv_data data)) None in
      let addr_type_str :=
        if (r_addr_type data =? 0)%Z then "Public"%string else "Random"%string in
      let entry := {| name := name_;
                      rssi := r_rssi data;
                      addr_type := addr_type_str;
                      connectable := (r_adv_type data =? 0)%Z
                                     || (r_adv_type data =? 1)%Z;
                      services := services_;
                      manufacturer_data := manufacturer;
                      adv_type := r_adv_type data |} in
      let self' := {| devices_found := setitem mac_addr entry (devices_found self);
                      scan_complete := scan_complete self;
                      led := led self |} in
      (self',
       "*"%string ::
       (if (r_rssi data >? -60)%Z then
          [(nl ++ "  Strong: " ++ name_ ++ " (" ++ mac_addr ++ ") "
               ++ str_int (r_rssi data) ++ "dBm")%string]
        else []))
    else (self, [])
  else if (event =? 6)%Z then
    ({| devices_found := devices_found self;
        scan_complete := true;
        led := led self |}, [])
  else (self, []).

(** The handler run over the events of a session, oldest first. *)
Fixpoint deliver (self : scanner) (events : list (Z * report))
  : scanner * list string :=
  match events with
  | [] => (self, [])
  | (event, data) :: rest =>
      let (self1, out1) := _irq self event data in
      let (self2, out2) := deliver self1 rest in
      (self2, out1 ++ out2)
  end.

End Registry.

Import Registry.

(* ===================================================================== *)
(** * The scan session *)
(* ===================================================================== *)

Module Session.

(** The collaborators of [scan_devices], scripted: which radio calls fail,
    what the clock reads each time it is asked, and what happens while the
    task is suspended in its [k]-th sleep (the events the driver hands to the
    handler, then the exception thrown into the task on wake-up, if any). *)
Record world : Type := {
  active_raises : option exn;
  irq_raises : option exn;
  gap_scan_raises : option exn;
  gap_stop_raises : option exn;
  ticks_ms : nat -> Z;
  sleep : nat -> list (Z * report) * option exn
}.

(** What the session does to the outside, in order. *)
Inductive action : Type :=
| Stdout (text : string)
| LedOn
| LedOff
| BleActive (on : bool)
| BleIrq
| GapScan (duration_ms interval_us window_us : Z)
| GapScanNone
| SleepMs (ms : Z).

Record machine : Type := {
  self : scanner;
  log : list action
}.

Definition emit (a : action) (m : machine) : machine :=
  {| self := self m; log := log m ++ [a] |}.

(** [print(text)], and [print(text, end=...)] with an empty [end]. *)
Definition print (text : string) (m : machine) : machine :=
  emit (Stdout (text ++ nl)) m.
Definition print_noend (text : string) (m : machine) : machine :=
  emit (Stdout text) m.

(** A call on the radio: logged, then it may raise. *)
Definition call (a : action) (raises : option exn) (m : machine)
  : machine * flow unit :=
  match raises with
  | None => (emit a m, Falls)
  | Some e => (emit a m, Throws e)
  end.

(** The period of the millisecond tick counter, and [time.ticks_diff]. *)
Definition TICKS_PERIOD : Z := 2 ^ 30.

Definition ticks_diff (t1 t2 : Z) : Z :=
  ((t1 - t2 + TICKS_PERIOD / 2) mod TICKS_PERIOD - TICKS_PERIOD / 2)%Z.

Fixpoint repeat_str (s : string) (n : nat) : string :=
  match n with
  | O => EmptyString
  | S n' => (s ++ repeat_str s n')%string
  end.

(** [str(e)] *)
Definition exn_str (e : exn) : string :=
  match e with
  | IndexError => "index out of range"
  | UnicodeError => "invalid utf-8"
  | StructError => "buffer too small"
  | OSError errno => str_int errno
  | KeyboardInterrupt => EmptyString
  | CancelledError => EmptyString
  end.

(** The events of one sleep reach the handler; what it prints is logged. *)
Definition suspended (events : list (Z * report)) (m : machine) : machine :=
  let (self', out) := deliver (self m) events in
  {| self := self'; log := log m ++ map Stdout out |}.

(** The [while not self.scan_complete] loop; [k] counts the passes made. *)
Fixpoint wait_loop (fuel : nat) (w : world) (duration_seconds start_time : Z)
  (k : nat) (m : machine) : machine * flow unit :=
  match fuel with
  | O => (m, Stalls)
  | S fuel' =>
      if negb (scan_complete (self m)) then
        if (ticks_diff (ticks_ms w (S k)) start_time
              >? (duration_seconds + 2) * 1000)%Z then
          (print (nl ++ "Scan timeout!") m, Falls)
        else
          let (events, interrupt) := sleep w k in
          let m' := suspended events (emit (SleepMs 100) m) in
          match interrupt with
          | Some e => (m', Throws e)
          | None => wait_loop fuel' w duration_seconds start_time (S k) m'
          end
      else (m, Falls)
  end.

(** Sequencing of two blocks. *)
Definition andthen (r : machine * flow unit)
  (k : machine -> machine * flow unit) : machine * flow unit :=
  match r with
  | (m, Falls) => k m
  | other => other
  end.

(** The body of the [try]. *)
Definition try_body (fuel : nat) (w : world) (duration_seconds : Z)
  (m : machine) : machine * flow unit :=
  andthen (call (BleActive true) (active_raises w) m) (fun m =>
  andthen (call BleIrq (irq_raises w) m) (fun m =>
  let m := print_noend "Scanning" m in
  andthen (call (GapScan (duration_seconds * 1000) 30000 30000)
             (gap_scan_raises w) m) (fun m =>
  let start_time := ticks_ms w 0 in
  andthen (wait_loop fuel w duration_seconds start_time 0 m) (fun m =>
  (print (nl ++ nl ++ "Scan complete! Found "
             ++ str_int (Z.of_nat (length (devices_found (self m))))
             ++ " unique devices") m, Falls))))).

(** [except Exception as e]: print the error and carry on. *)
Definition except_Exception (r : machine * flow unit) : machine * flow unit :=
  match r with
  | (m, Throws e) =>
      if is_Exception e then
        let m := print (nl ++ "Scan error: " ++ exn_str e) m in
        let m := print (exn_str e) m in          (* sys.print_exception(e) *)
        (m, Falls)
      else (m, Throws e)
  | other => other
  end.

(** The [finally] block; it does not run when the [try] never finishes. *)
Definition finally (w : world) (r : machine * flow unit) : machine * flow unit :=
  match r with
  | (m, Stalls) => (m, Stalls)
  | (m, st) =>
      let m := if led (self m) then emit LedOff m else m in
      let m :=
        match call GapScanNone (gap_stop_raises w) m with
        | (m', Throws _) => m'                     (* except: pass *)
        | (m', _) => m'
        end in
      (m, st)
  end.

(** [scan_devices(duration_seconds)] on [fuel] passes of the wait loop. *)
Definition scan_devices (fuel : nat) (w : world) (self0 : scanner)
  (duration_seconds : Z) : machine * outcome registry :=
  let m := {| self := self0; log := [] |} in
  let m := print ("Scanning for BLE devices (" ++ str_int duration_seconds
                    ++ " seconds)...") m in
  let m := print (repeat_str "=" 50) m in
  let m := {| self := {| devices_found := [];
                         scan_complete := false;
                         led := led (self m) |};
              log := log m |} in
  let m := if led (self m) then emit LedOn m else m in
  match finally w (except_Exception (try_body fuel w duration_seconds m)) with
  | (m, Falls) => (m, Return (devices_found (self m)))
  | (m, Returns _) => (m, Return (devices_found (self m)))
  | (m, Throws e) => (m, Raise e)
  | (m, Stalls) => (m, Diverge)
  end.

(** ** Notions used to state what a session did *)

Definition is_stop (a : action) : bool :=
  match a with GapScanNone => true | _ => false end.

Definition is_led_off (a : action) : bool :=
  match a with LedOff => true | _ => false end.

Definition is_sleep (a : action) : bool :=
  match a with SleepMs _ => true | _ => false end.

Definition teardown (a : action) : bool := is_stop a || is_led_off a.

Definition count (p : action -> bool) (l : list action) : nat :=
  length (filter p l).

(** The first error among activation, handler registration and the scan
    command. *)
Definition start_error (w : world) : option exn :=
  match active_raises w with
  | Some e => Some e
  | None =>
      match irq_raises w with
      | Some e => Some e
      | None => gap_scan_raises w
      end
  end.

(** The same world, with a stop command that does not fail. *)
Definition stop_succeeds (w : world) : world :=
  {| active_raises := active_raises w;
     irq_raises := irq_raises w;
     gap_scan_raises := gap_scan_raises w;
     gap_stop_raises := None;
     ticks_ms := ticks_ms w;
     sleep := sleep w |}.

(** No scan-done event among those of the [i]-th sleep, and the sleep
    returns normally. *)
Definition quiet (w : world) (i : nat) : Prop :=
  snd (sleep w i) = None
  /\ forall ev, In ev (fst (sleep w i)) -> fst ev <> 6%Z.


(** The teardown as it appears at the end of a log. *)
Definition teardown_actions (with_led : bool) : list action :=
  (if with_led then [LedOff] else []) ++ [GapScanNone].

(** [m'] comes from [m] by steps that are no part of the teardown. *)
Definition no_teardown (m m' : machine) : Prop :=
  filter teardown (log m') = filter teardown (log m)
  /\ led (self m') = led (self m).

(** The machine as the [try] statement is entered. *)
Definition entered (self0 : scanner) (d : Z) : machine :=
  let m := {| self := self0; log := [] |} in
  let m := print ("Scanning for BLE devices (" ++ str_int d ++ " seconds)...") m in
  let m := print (repeat_str "=" 50) m in
  let m := {| self := {| devices_found := [];
                         scan_complete := false;
                         led := led (self m) |};
              log := log m |} in
  if led (self m) then emit LedOn m else m.

End Session.

Import Session.

(* ===================================================================== *)
(** * Ranking for the reports *)
(* ===================================================================== *)

Module Report.

(** Where [x] goes in a list that is already in order, when [x] came before
    all of it in the input: in front of the first element that does not
    have to precede it. *)
Fixpoint insert {A : Type} (precedes : A -> A -> bool) (x : A) (l : list A)
  : list A :=
  match l with
  | [] => [x]
  | y :: l' => if precedes y x then y :: insert precedes x l' else x :: y :: l'
  end.

(** [sorted(l, key=key, reverse=reverse)]: a stable sort on the keys, with
    every comparison turned around when [reverse] is set. *)
Definition precedes {A : Type} (key : A -> Z) (reverse : bool) (y x : A)
  : bool :=
  if reverse then (key x <? key y)%Z else (key y <? key x)%Z.

Definition sorted {A : Type} (key : A -> Z) (reverse : bool) (l : list A)
  : list A :=
  fold_right (insert (precedes key reverse)) [] l.

(** The order of the output of [sorted]: keys fall when [reverse] is set,
    rise otherwise. *)
Definition in_order {A : Type} (key : A -> Z) (reverse : bool) (a c : A)
  : Prop :=
  if reverse then (key c <= key a)%Z else (key a <= key c)%Z.

(** [sorted(self.devices_found.items(), key=lambda x: x[1]['rssi'],
    reverse=True)], as both [print_results] and [print_summary] compute it. *)
Definition sorted_devices (devices_found : registry) : registry :=
  sorted (fun x : string * device => rssi (snd x)) true devices_found.

(** The signal label of [print_results]. *)
Definition strength (rssi_ : Z) : string :=
  if (rssi_ >? -50)%Z then "Excellent"
  else if (rssi_ >? -60)%Z then "Good"
  else if (rssi_ >? -70)%Z then "Fair"
  else if (rssi_ >? -80)%Z then "Weak"
  else "Very Weak".

(** One line of [print_summary]. *)
Definition summary_line (entry : string * device) : string :=
  let (mac, info) := entry in
  let strength_ : string :=
    if (rssi info >? -60)%Z then "Strong"%string else "Weak"%string in
  let name_display : string :=
    if negb (String.eqb (name info) "Unknown"%string) then name info
    else "Unnamed"%string in
  ("  " ++ name_display ++ " (" ++ mac ++ ") - " ++ str_int (rssi info)
        ++ "dBm (" ++ strength_ ++ ")")%string.

(** [print_summary()]: the lines printed. *)
Definition print_summary (self : scanner) : list string :=
  match devices_found self with
  | [] => ["No devices found"%string]
  | _ =>
      (nl ++ "Quick Summary - "
          ++ str_int (Z.of_nat (length (devices_found self))) ++ " devices:")%string
      :: map summary_line (sorted_devices (devices_found self))
  end.

End Report.

Import Report.

(* ===================================================================== *)
(** * The advertising-data format, as a reference for the decoders *)
(* ===================================================================== *)

Module Format.

(** One AD structure: a length byte, a type byte, the value. *)
Record ad_record : Type := {
  ad_len : byte;
  ad_type : byte;
  ad_value : bytes
}.

Definition encode_record (r : ad_record) : bytes :=
  ad_len r :: ad_type r :: ad_value r.

Definition encode (rs : list ad_record) : bytes := flat_map encode_record rs.

(** The length byte counts the type byte and the value. *)
Definition complete (r : ad_record) : Prop :=
  Byte.to_nat (ad_len r) = 1 + length (ad_value r).

Definition is_type (codes : list nat) (t : byte) : bool :=
  existsb (Nat.eqb (Byte.to_nat t)) codes.

Definition name_type : byte -> bool := is_type [0x09; 0x08].
Definition uuid16_type : byte -> bool := is_type [0x02; 0x03].
Definition uuid128_type : byte -> bool := is_type [0x06; 0x07].
Definition manufacturer_type : byte -> bool := is_type [0xFF].

(** A UUID list holds whole UUIDs. *)
Definition aligned (r : ad_record) : Prop :=
  (uuid16_type (ad_type r) = true -> length (ad_value r) mod 2 = 0) /\
  (uuid128_type (ad_type r) = true -> length (ad_value r) mod 16 = 0).

(** What follows the last complete record of a buffer. *)
Inductive ending : Type :=
| Clean                                  (* nothing *)
| Terminated (rest : bytes)              (* a zero length byte, then anything *)
| Dangling (l : byte)                    (* a length byte and no type byte *)
| Truncated (l t : byte) (v : bytes).    (* a value shorter than declared *)

Definition ending_bytes (e : ending) : bytes :=
  match e with
  | Clean => []
  | Terminated rest => x00 :: rest
  | Dangling l => [l]
  | Truncated l t v => l :: t :: v
  end.

Definition proper (e : ending) : Prop :=
  match e with
  | Clean | Terminated _ => True
  | Dangling l => Byte.to_nat l <> 0
  | Truncated l t v => 1 + length v < Byte.to_nat l
  end.

(** A record is cut short by the end of the buffer. *)
Definition cut_short (e : ending) : Prop :=
  match e with
  | Clean | Terminated _ => False
  | Dangling _ | Truncated _ _ _ => True
  end.

(** The first [fuel] pieces of [size] bytes of [v]; a shorter remainder is
    left out. *)
Fixpoint chunks (size fuel : nat) (v : bytes) : list bytes :=
  match fuel with
  | O => []
  | S fuel' =>
      if size <=? length v
      then firstn size v :: chunks size fuel' (skipn size v)
      else []
  end.

Definition whole_chunks (size : nat) (v : bytes) : list bytes :=
  chunks size (length v) v.

Definition text_of (v : bytes) : option string :=
  match decode_utf8 v with
  | Ok s => Some s
  | Err _ => None
  end.

(** Two upper-case digits for a byte, two lower-case digits for a byte. *)
Definition HH (x : byte) : string :=
  String (hex_digit true (Byte.to_N x / 16))
    (String (hex_digit true (Byte.to_N x mod 16)) EmptyString).
Definition hh (x : byte) : string :=
  String (hex_digit false (Byte.to_N x / 16))
    (String (hex_digit false (Byte.to_N x mod 16)) EmptyString).

(** A 16-bit UUID sent as [lo; hi] reads [0xHHLL]. *)
Definition uuid16_text (pair : bytes) : string :=
  match pair with
  | [lo; hi] => ("0x" ++ HH hi ++ HH lo)%string
  | _ => EmptyString
  end.

Fixpoint hh_all (v : bytes) : string :=
  match v with
  | [] => EmptyString
  | x :: v' => (hh x ++ hh_all v')%string
  end.

(** A 128-bit UUID: the sixteen bytes in reverse, grouped 8-4-4-4-12. *)
Definition uuid128_text (sixteen : bytes) : string :=
  let m := rev sixteen in
  (hh_all (firstn 4 m) ++ "-" ++ hh_all (firstn 2 (skipn 4 m)) ++ "-"
   ++ hh_all (firstn 2 (skipn 6 m)) ++ "-" ++ hh_all (firstn 2 (skipn 8 m))
   ++ "-" ++ hh_all (skipn 10 m))%string.

(** The UUIDs a value of type [t] holds, in order. *)
Definition value_services (t : byte) (v : bytes) : list string :=
  if uuid16_type t then map uuid16_text (whole_chunks 2 v)
  else if uuid128_type t then map uuid128_text (whole_chunks 16 v)
  else [].

Definition record_services (r : ad_record) : list string :=
  value_services (ad_type r) (ad_value r).

(** The value of the first record of a kind, the records then the ending. *)
Fixpoint first_value (kind : byte -> bool) (rs : list ad_record) (e : ending)
  : option bytes :=
  match rs with
  | r :: rs' =>
      if kind (ad_type r) then Some (ad_value r) else first_value kind rs' e
  | [] =>
      match e with
      | Truncated l t v => if kind t then Some v else None
      | _ => None
      end
  end.

Definition name_of (rs : list ad_record) (e : ending) : option string :=
  match first_value name_type rs e with
  | Some v => text_of v
  | None => None
  end.

Definition manufacturer_of (rs : list ad_record) (e : ending) : option bytes :=
  first_value manufacturer_type rs e.

Definition services_of (rs : list ad_record) (e : ending) : list string :=
  flat_map record_services rs ++
  match e with
  | Truncated l t v => value_services t v
  | _ => []
  end.

(** All 256 bytes, and the check that the two renderings of a 16-bit UUID
    agree on a pair of them. *)
Definition every_byte : list byte :=
  flat_map (fun n => match Byte.of_nat n with Some x => [x] | None => [] end)
    (seq 0 256).

Definition uuid16_agrees (lo hi : byte) : bool :=
  String.eqb (uuid16_str (Byte.to_N lo + 256 * Byte.to_N hi))
             (uuid16_text [lo; hi]).

(** How the name loop leaves a buffer of complete records and an ending. *)
Definition name_flow (rs : list ad_record) (e : ending) : flow (option string) :=
  match first_value name_type rs e with
  | Some v => s <-- decode_utf8 v ;; Returns (Some s)
  | None =>
      match e with
      | Dangling _ => Throws IndexError
      | _ => Falls
      end
  end.

Definition manufacturer_flow (rs : list ad_record) (e : ending)
  : flow (option bytes) :=
  match first_value manufacturer_type rs e with
  | Some v => Returns (Some v)
  | None =>
      match e with
      | Dangling _ => Throws IndexError
      | _ => Falls
      end
  end.

(** How the service loop leaves a buffer of complete records and an ending. *)
Definition services_status (e : ending) : flow unit :=
  match e with
  | Dangling _ => Throws IndexError
  | _ => Falls
  end.

(** A greedy split of any buffer into its complete records and what is
    left after them. *)
Fixpoint parse (fuel : nat) (b : bytes) : list ad_record * ending :=
  match fuel with
  | O => ([], Clean)
  | S fuel' =>
      match b with
      | [] => ([], Clean)
      | l :: after_len =>
          if Byte.to_nat l =? 0 then ([], Terminated after_len)
          else
            match after_len with
            | [] => ([], Dangling l)
            | t :: rest =>
                if 1 + length rest <? Byte.to_nat l
                then ([], Truncated l t rest)
                else
                  let (rs, e) := parse fuel' (skipn (Byte.to_nat l - 1) rest) in
                  ({| ad_len := l; ad_type := t;
                      ad_value := firstn (Byte.to_nat l - 1) rest |} :: rs, e)
            end
      end
  end.

(** [part] lies inside [whole], contiguously. *)
Definition inside (part whole : bytes) : Prop :=
  exists before after, whole = before ++ part ++ after.

(** The three ways advertising data yields no name. *)
Inductive no_name : bytes -> Prop :=
| no_name_record (rs : list ad_record) (e : ending) :
    Forall complete rs -> proper e ->
    first_value name_type rs e = None ->
    no_name (encode rs ++ ending_bytes e)
| name_not_utf8 (rs : list ad_record) (e : ending) (v : bytes) :
    Forall complete rs -> proper e ->
    first_value name_type rs e = Some v -> utf8_valid v = false ->
    no_name (encode rs ++ ending_bytes e)
| name_empty (rs : list ad_record) (e : ending) :
    Forall complete rs -> proper e ->
    first_value name_type rs e = Some [] ->
    no_name (encode rs ++ ending_bytes e).

End Format.

Import Format.

(* ===================================================================== *)
(** * Concrete inputs *)
(* ===================================================================== *)

Module Examples.

(** The fourteen bytes of the worked example. *)
Definition example_buffer : bytes :=
  [x02; x01; x06; x08; x09; "T"; "e"; "s"; "t"; "1"; x02; x03; x0a; x18]%byte.

(** Flags, the shortened name "Test1" and the 16-bit UUID 0x180A, each with
    its length byte. *)
Definition framed_buffer : bytes :=
  [x02; x01; x06; x06; x08; "T"; "e"; "s"; "t"; "1"; x03; x03; x0a; x18]%byte.

Definition flags : ad_record :=
  {| ad_len := x02; ad_type := x01; ad_value := [x06] |}.



(** Manufacturer data that declares four value bytes and has one. *)
Definition cut_manufacturer_buffer : bytes := [x05; xff; x4c].

(** Two 16-bit UUIDs, then one 128-bit UUID. *)
Definition two_lists : list ad_record :=
  [ {| ad_len := x05; ad_type := x03; ad_value := [x0a; x18; x0f; x18] |};
    {| ad_len := x11; ad_type := x07;
       ad_value := [x00; x01; x02; x03; x04; x05; x06; x07;
                    x08; x09; x0a; x0b; x0c; x0d; x0e; x0f] |} ].

(** A scanner that has found nothing yet, an address, and reports from it. *)
Definition fresh : scanner :=
  {| devices_found := []; scan_complete := false; led := true |}.

Definition address : bytes := [xaa; xbb; xcc; x01; x02; x03].

Definition report_at (rssi_ : Z) (adv_data : bytes) : report :=
  {| r_addr_type := 0; r_addr := address; r_adv_type := 0;
     r_rssi := rssi_; r_adv_data := adv_data |}.

(** A radio that cannot be activated. *)
Definition dead_radio : world :=
  {| active_raises := Some (OSError 19);
     irq_raises := None;
     gap_scan_raises := None;
     gap_stop_raises := None;
     ticks_ms := fun _ => 0%Z;
     sleep := fun _ => ([], None) |}.

(** A radio that scans and never reports completion; the tick counter is
    one second short of wrapping when the scan starts, and each pass of the
    wait loop comes 100 ms after the one before. *)
Definition silent_radio : world :=
  {| active_raises := None;
     irq_raises := None;
     gap_scan_raises := None;
     gap_stop_raises := Some (OSError 22);
     ticks_ms := fun n =>
       match n with
       | O => (TICKS_PERIOD - 1000)%Z
       | S i => ((TICKS_PERIOD - 1000 + 100 * Z.of_nat i) mod TICKS_PERIOD)%Z
       end;
     sleep := fun _ => ([], None) |}.

(** Three devices, two of them equally strong. *)
Definition entry_at (rssi_ : Z) : device :=
  {| name := "Unknown"; rssi := rssi_; addr_type := "Public";
     connectable := true; services := []; manufacturer_data := None;
     adv_type := 0 |}.

Definition three_devices : registry :=
  [ ("AA", entry_at (-60)); ("BB", entry_at (-50)); ("CC", entry_at (-60)) ]%string.

End Examples.

Import Examples.

(* ===================================================================== *)
(** * The detailed report and the scan functions *)
(* ===================================================================== *)

Module Detail.

(** The lines [print_results] prints for the [i]-th pair of the ranking,
    and whether the body of the loop ran to its end. *)
Definition device_block (i : nat) (entry : string * device)
  : list string * result unit :=
  let (mac, info) := entry in
  let head : list string :=
    [ (nl ++ str_int (Z.of_nat i) ++ ". " ++ name info)%string;
      ("   MAC Address: " ++ mac)%string;
      ("   Signal: " ++ str_int (rssi info) ++ " dBm ("
         ++ strength (rssi info) ++ ")")%string;
      ("   Address Type: " ++ addr_type info)%string;
      ("   Connectable: "
         ++ (if connectable info then "Yes" else "No"))%string ] in
  let services_lines : list string :=
    match services info with
    | [] => []
    | _ =>
        let service_list := slice (services info) 0 3 in
        ("   Services: " ++ join ", " service_list)%string
        :: (if 3 <? length (services info) then
              [("   ... and "
                  ++ str_int (Z.of_nat (length (services info) - 3))
                  ++ " more services")%string]
            else [])
    end in
  match manufacturer_data info with
  | None => (head ++ services_lines, Ok tt)
  | Some [] => (head ++ services_lines, Ok tt)
  | Some mfg_data =>
      if 2 <=? length mfg_data then
        match unpack_H (slice mfg_data 0 2) with
        | Ok company_id =>
            (head ++ services_lines
               ++ [("   Manufacturer: Company ID 0x"
                      ++ format_hex true 4 company_id)%string], Ok tt)
        | Err e => (head ++ services_lines, Err e)
        end
      else
        (head ++ services_lines
           ++ [("   Manufacturer: " ++ str_int (Z.of_nat (length mfg_data))
                  ++ " bytes of data")%string], Ok tt)
  end.

(** [for i, (mac, info) in enumerate(sorted_devices, i)] *)
Fixpoint device_blocks (i : nat) (entries : registry)
  : list string * result unit :=
  match entries with
  | [] => ([], Ok tt)
  | entry :: rest =>
      match device_block i entry with
      | (lines, Ok _) =>
          let (more, r) := device_blocks (S i) rest in (lines ++ more, r)
      | (lines, Err e) => (lines, Err e)
      end
  end.

(** [print_results()]: the lines printed and how the call ends. *)
Definition print_results (self : scanner) : list string * outcome unit :=
  match devices_found self with
  | [] => (["No devices found"%string], Return tt)
  | _ =>
      let (lines, r) := device_blocks 1 (sorted_devices (devices_found self)) in
      ([ (nl ++ repeat_str "=" 60)%string;
         "DISCOVERED BLE DEVICES"%string;
         repeat_str "=" 60 ] ++ lines,
       match r with
       | Ok _ => Return tt
       | Err e => Raise e
       end)
  end.

End Detail.

Import Detail.

Module Scans.

(** Which of the two candidate LED pins can be opened. *)
Record board : Type := {
  pin8_raises : option exn;
  pin2_raises : option exn
}.

(** [ESP32BLEScanner()]: the new scanner and the text printed. *)
Definition __init__ (b : board) : scanner * list string :=
  let made (led_ : bool) :=
    {| devices_found := []; scan_complete := false; led := led_ |} in
  match pin8_raises b with
  | None => (made true, [])
  | Some _ =>
      match pin2_raises b with
      | None => (made true, [])
      | Some _ => (made false, ["Note: No LED pin available"%string])
      end
  end.

(** A line printed by [print]. *)
Definition say (text : string) : action := Stdout (text ++ nl).

(** A scan of [duration_seconds] on a new scanner, then a report: the
    pattern of [quick_scan], [standard_scan] and [long_scan]. *)
Definition scan_then (report : scanner -> list string * outcome unit)
  (duration_seconds : Z) (fuel : nat) (b : board) (w : world)
  : list action * outcome unit :=
  let (scanner_, notes) := __init__ b in
  match scan_devices fuel w scanner_ duration_seconds with
  | (m, Return _) =>
      let (lines, r) := report (self m) in
      (map say notes ++ log m ++ map say lines, r)
  | (m, Raise e) => (map say notes ++ log m, Raise e)
  | (m, Diverge) => (map say notes ++ log m, Diverge)
  end.

Definition quick_scan : nat -> board -> world -> list action * outcome unit :=
  scan_then (fun self => (print_summary self, Return tt)) 5.

Definition standard_scan : nat -> board -> world -> list action * outcome unit :=
  scan_then print_results 15.

Definition long_scan : nat -> board -> world -> list action * outcome unit :=
  scan_then print_results 30.

End Scans.

Import Scans.

Module Continuous.

(** What the outside does in each round of [continuous_scan]: the radio and
    clock of the round's scan, and whether the pause after it is
    interrupted. *)
Record schedule : Type := {
  round_world : nat -> world;
  pause_raises : nat -> option exn
}.

(** The [while True] loop of [continuous_scan], on [rounds] rounds of fuel;
    [i] counts the rounds made.  The scanner object is the same in every
    round. *)
Fixpoint continuous_loop (rounds fuel : nat) (sch : schedule) (i : nat)
  (scanner_ : scanner) : list action * flow unit :=
  match rounds with
  | O => ([], Stalls)
  | S rounds' =>
      let banner :=
        say (nl ++ repeat_str "-" 25 ++ " New Scan " ++ repeat_str "-" 25) in
      match scan_devices fuel (round_world sch i) scanner_ 10 with
      | (m, Return _) =>
          let out :=
            banner :: log m ++ map say (print_summary (self m))
              ++ [say (nl ++ "Waiting 15 seconds...")] in
          match pause_raises sch i with
          | Some e => (out, Throws e)
          | None =>
              let (more, st) :=
                continuous_loop rounds' fuel sch (S i) (self m) in
              (out ++ more, st)
          end
      | (m, Raise e) => (banner :: log m, Throws e)
      | (m, Diverge) => (banner :: log m, Stalls)
      end
  end.

(** [continuous_scan()]: [except KeyboardInterrupt] around the loop. *)
Definition continuous_scan (rounds fuel : nat) (b : board) (sch : schedule)
  : list action * outcome unit :=
  let (scanner_, notes) := __init__ b in
  let opening :=
    map say notes
      ++ [say "Continuous BLE scanning - Press Ctrl+C to stop"] in
  match continuous_loop rounds fuel sch 0 scanner_ with
  | (out, Throws KeyboardInterrupt) =>
      (opening ++ out ++ [say (nl ++ "Stopped continuous scanning")],
       Return tt)
  | (out, Throws e) => (opening ++ out, Raise e)
  | (out, Stalls) => (opening ++ out, Diverge)
  | (out, Falls) => (opening ++ out, Return tt)
  | (out, Returns _) => (opening ++ out, Return tt)
  end.

End Continuous.

Import Continuous.

(* ===================================================================== *)
(** * Notions used to state further properties *)
(* ===================================================================== *)

Module Notions.

(** The byte of a number below 256. *)
Definition byte_of (n : nat) : byte :=
  match Byte.of_nat n with
  | Some x => x
  | None => xff
  end.

(** The AD structure that carries [v] under type [t]: the length byte is
    computed. *)
Definition field (t : byte) (v : bytes) : ad_record :=
  {| ad_len := byte_of (1 + length v); ad_type := t; ad_value := v |}.

(** No record of [rs] is of the kind. *)
Definition none_of (kind : byte -> bool) (rs : list ad_record) : bool :=
  forallb (fun r => negb (kind (ad_type r))) rs.

(** [x] renders two or sixteen consecutive bytes of [adv_data]. *)
Definition uuid_of_buffer (adv_data : bytes) (x : string) : Prop :=
  exists c,
    inside c adv_data
    /\ ((length c = 2 /\ x = uuid16_text c)
        \/ (length c = 16 /\ x = uuid128_text c)).

Definition is_result (ev : Z * report) : bool := (fst ev =? 5)%Z.
Definition is_done (ev : Z * report) : bool := (fst ev =? 6)%Z.

(** The keys [macs] adds to [seen], each at its first occurrence. *)
Definition first_seen (seen macs : list string) : list string :=
  fold_left
    (fun acc mac => if existsb (String.eqb mac) acc then acc else acc ++ [mac])
    macs seen.

Definition is_star (s : string) : bool := String.eqb s "*".

(** The events of the sleeps [j], ..., [j + k - 1], in order. *)
Definition gathered (w : world) (j k : nat) : list (Z * report) :=
  flat_map (fun i => fst (sleep w i)) (seq j k).

(** At the [i]-th pass of the wait loop the deadline has gone by. *)
Definition late (w : world) (d : Z) (i : nat) : bool :=
  (ticks_diff (ticks_ms w (S i)) (ticks_ms w 0) >? (d + 2) * 1000)%Z.

(** The scanner as [scan_devices] resets it. *)
Definition cleared (self0 : scanner) : scanner :=
  {| devices_found := []; scan_complete := false; led := led self0 |}.

Definition is_radio (a : action) : bool :=
  match a with
  | BleActive _ | BleIrq | GapScan _ _ _ | GapScanNone => true
  | _ => false
  end.

Definition is_led (a : action) : bool :=
  match a with
  | LedOn | LedOff => true
  | _ => false
  end.

(** The radio calls up to and including the first that fails. *)
Definition start_calls (w : world) (d : Z) : list action :=
  BleActive true ::
  match active_raises w with
  | Some _ => []
  | None =>
      BleIrq ::
      match irq_raises w with
      | Some _ => []
      | None => [GapScan (d * 1000) 30000 30000]
      end
  end.

Definition timeout_text : string := ((nl ++ "Scan timeout!") ++ nl)%string.

Definition strong (entry : string * device) : bool := (rssi (snd entry) >? -60)%Z.

End Notions.

Import Notions.

Module MoreExamples.

(** A radio on which two devices report during the first sleep, and a third
    report and the scan-done event come during the second. *)
Definition finishing_radio : world :=
  {| active_raises := None;
     irq_raises := None;
     gap_scan_raises := None;
     gap_stop_raises := None;
     ticks_ms := fun _ => 0%Z;
     sleep := fun i =>
       match i with
       | 0 => ([(5%Z, report_at (-55) framed_buffer);
                (5%Z, {| r_addr_type := 1; r_addr := [x01; x02; x03; x04; x05; x06];
                         r_adv_type := 3; r_rssi := -70;
                         r_adv_data := cut_manufacturer_buffer |})], None)
       | 1 => ([(5%Z, report_at (-40) framed_buffer);
                (6%Z, report_at 0 [])], None)
       | _ => ([], None)
       end |}.

(** A radio on which the user aborts during the first sleep, after one
    report. *)
Definition interrupted_radio : world :=
  {| active_raises := None;
     irq_raises := None;
     gap_scan_raises := None;
     gap_stop_raises := None;
     ticks_ms := fun _ => 0%Z;
     sleep := fun _ =>
       ([(5%Z, report_at (-55) framed_buffer)], Some KeyboardInterrupt) |}.

(** A board with an LED on pin 8. *)
Definition plain_board : board :=
  {| pin8_raises := None; pin2_raises := None |}.

(** A 16-bit UUID list of three value bytes. *)
Definition odd_list : ad_record :=
  {| ad_len := x04; ad_type := x03; ad_value := [x0a; x18; xff] |}.

End MoreExamples.

Import MoreExamples.

(* ===================================================================== *)
(** * Facts about the built-ins and the decoders *)
(* ===================================================================== *)

Module HexFacts.

Lemma format_byte_upper (x : byte) : format_hex true 2 (Byte.to_N x) = HH x.
Proof. destruct x; vm_compute; reflexivity. Qed.

Lemma format_byte_lower (x : byte) : format_hex false 2 (Byte.to_N x) = hh x.
Proof. destruct x; vm_compute; reflexivity. Qed.

Lemma every_byte_In (x : byte) : In x every_byte.
Proof.
  unfold every_byte. apply in_flat_map. exists (Byte.to_nat x). split.
  - apply in_seq. pose proof (Byte.to_nat_bounded x). lia.
  - rewrite Byte.of_to_nat. left. reflexivity.
Qed.

Lemma uuid16_agrees_all :
  forallb (fun lo => forallb (uuid16_agrees lo) every_byte) every_byte = true.
Proof. vm_compute. reflexivity. Qed.

Lemma uuid16_str_text (lo hi : byte) :
  uuid16_str (Byte.to_N lo + 256 * Byte.to_N hi) = uuid16_text [lo; hi].
Proof.
  pose proof uuid16_agrees_all as H.
  rewrite forallb_forall in H. specialize (H lo (every_byte_In lo)).
  rewrite forallb_forall in H. specialize (H hi (every_byte_In hi)).
  apply String.eqb_eq. exact H.
Qed.

Lemma hex_hh_all (v : bytes) : hex v = hh_all v.
Proof.
  unfold hex. induction v as [|x v IH]; [reflexivity|].
  simpl map. rewrite format_byte_lower.
  destruct v as [|y v]; [reflexivity|].
  change (hh_all (x :: y :: v)) with (hh x ++ hh_all (y :: v))%string.
  rewrite <- IH. reflexivity.
Qed.

Lemma uuid128_str_text (u : bytes) :
  length u = 16 -> uuid128_str u = uuid128_text u.
Proof.
  intros H.
  do 16 (destruct u as [|? u]; [discriminate H|]).
  destruct u; [|discriminate H].
  unfold uuid128_str, reversed. rewrite !hex_hh_all. reflexivity.
Qed.

End HexFacts.

Module DecoderFacts.

Lemma getitem_at (pre : bytes) (x : byte) (rest : bytes) :
  getitem (pre ++ x :: rest) (length pre) = Ok (Byte.to_nat x).
Proof.
  unfold getitem. rewrite nth_error_app2 by lia.
  rewrite Nat.sub_diag. reflexivity.
Qed.

Lemma getitem_next (pre : bytes) (x y : byte) (rest : bytes) :
  getitem (pre ++ x :: y :: rest) (length pre + 1) = Ok (Byte.to_nat y).
Proof.
  unfold getitem. rewrite nth_error_app2 by lia.
  replace (length pre + 1 - length pre) with 1 by lia. reflexivity.
Qed.

Lemma getitem_past (pre : bytes) (x : byte) :
  getitem (pre ++ [x]) (length pre + 1) = Err IndexError.
Proof.
  unfold getitem.
  assert (H : nth_error (pre ++ [x]) (length pre + 1) = None).
  { apply nth_error_None. rewrite length_app. simpl. lia. }
  rewrite H. reflexivity.
Qed.

Lemma slice_app_skip (pre l : bytes) (lo hi : nat) :
  slice (pre ++ l) (length pre + lo) (length pre + hi) = slice l lo hi.
Proof.
  unfold slice. rewrite skipn_app.
  rewrite skipn_all2 by lia. simpl.
  replace (length pre + lo - length pre) with lo by lia.
  replace (length pre + hi - (length pre + lo)) with (hi - lo) by lia.
  reflexivity.
Qed.

(** The value of a record, as the decoders slice it out of the buffer. *)
Lemma slice_value (pre : bytes) (l t : byte) (v rest : bytes) :
  Byte.to_nat l = 1 + length v ->
  slice (pre ++ l :: t :: v ++ rest) (length pre + 2)
    (length pre + 1 + Byte.to_nat l) = v.
Proof.
  intros H. rewrite <- Nat.add_assoc. rewrite slice_app_skip.
  unfold slice. simpl skipn.
  replace (1 + Byte.to_nat l - 2) with (length v) by lia.
  rewrite firstn_app, Nat.sub_diag, firstn_all. simpl. apply app_nil_r.
Qed.

(** The same slice when the buffer ends before the declared length. *)
Lemma slice_clamped (pre : bytes) (l t : byte) (v : bytes) :
  1 + length v < Byte.to_nat l ->
  slice (pre ++ l :: t :: v) (length pre + 2)
    (length pre + 1 + Byte.to_nat l) = v.
Proof.
  intros H. rewrite <- Nat.add_assoc. rewrite slice_app_skip.
  unfold slice. simpl skipn. apply firstn_all2. lia.
Qed.

Lemma is_type_two (a c : nat) (t : byte) :
  is_type [a; c] t = (Byte.to_nat t =? a) || (Byte.to_nat t =? c).
Proof. unfold is_type. simpl. rewrite orb_false_r. reflexivity. Qed.

Lemma is_type_one (a : nat) (t : byte) :
  is_type [a] t = (Byte.to_nat t =? a).
Proof. unfold is_type. simpl. apply orb_false_r. Qed.

(** ** The name decoder *)

Lemma name_loop_ends (fuel : nat) :
  forall (adv_data : bytes) (i : nat),
    length adv_data - i < fuel ->
    name_loop fuel adv_data i <> Stalls.
Proof.
  induction fuel as [|fuel IH]; intros adv_data i Hfuel; [lia|].
  simpl. destruct (i <? length adv_data) eqn:Hi; [|discriminate].
  apply Nat.ltb_lt in Hi.
  destruct (getitem adv_data i) as [n|]; simpl; [|discriminate].
  destruct (n =? 0) eqn:Hn; [discriminate|]. apply Nat.eqb_neq in Hn.
  destruct (getitem adv_data (i + 1)) as [t|]; simpl; [|discriminate].
  destruct (t =? 9).
  { destruct (decode_utf8 _); simpl; discriminate. }
  destruct (t =? 8).
  { destruct (decode_utf8 _); simpl; discriminate. }
  apply IH. lia.
Qed.

Lemma name_loop_ending (e : ending) (pre : bytes) (fuel : nat) :
  proper e ->
  length (ending_bytes e) < fuel ->
  name_loop fuel (pre ++ ending_bytes e) (length pre) = name_flow [] e.
Proof.
  intros He Hfuel. destruct fuel as [|fuel]; [lia|].
  unfold name_flow. simpl first_value. cbn [name_loop].
  destruct e as [|rest|l|l t v]; simpl ending_bytes in *.
  - rewrite app_nil_r, Nat.ltb_irrefl. reflexivity.
  - rewrite length_app. simpl length.
    replace (length pre <? length pre + S (length rest)) with true
      by (symmetry; apply Nat.ltb_lt; lia).
    rewrite getitem_at. reflexivity.
  - rewrite length_app. simpl length.
    replace (length pre <? length pre + 1) with true
      by (symmetry; apply Nat.ltb_lt; lia).
    rewrite getitem_at. simpl bindf. simpl in He.
    replace (Byte.to_nat l =? 0) with false
      by (symmetry; apply Nat.eqb_neq; exact He).
    rewrite getitem_past. reflexivity.
  - simpl in He. simpl in Hfuel. rewrite length_app. simpl length.
    replace (length pre <? length pre + S (S (length v))) with true
      by (symmetry; apply Nat.ltb_lt; lia).
    rewrite getitem_at. simpl bindf.
    replace (Byte.to_nat l =? 0) with false
      by (symmetry; apply Nat.eqb_neq; lia).
    rewrite getitem_next. simpl bindf.
    rewrite slice_clamped by exact He.
    unfold name_type. rewrite is_type_two.
    destruct (Byte.to_nat t =? 9); [reflexivity|].
    destruct (Byte.to_nat t =? 8); [reflexivity|]. simpl.
    destruct fuel as [|fuel]; [lia|]. cbn [name_loop].
    rewrite length_app. simpl length.
    replace (length pre + 1 + Byte.to_nat l <? length pre + S (S (length v)))
      with false by (symmetry; apply Nat.ltb_ge; lia).
    reflexivity.
Qed.

Lemma name_loop_records (rs : list ad_record) :
  forall (e : ending) (pre : bytes) (fuel : nat),
    Forall complete rs -> proper e ->
    length (encode rs ++ ending_bytes e) < fuel ->
    name_loop fuel (pre ++ encode rs ++ ending_bytes e) (length pre)
    = name_flow rs e.
Proof.
  induction rs as [|r rs IH]; intros e pre fuel Hrs He Hfuel.
  - simpl. apply name_loop_ending; assumption.
  - inversion Hrs as [|? ? Hr Hrs']; subst. destruct r as [l t v].
    unfold complete in Hr. simpl in Hr.
    simpl encode in *. unfold encode_record in *. simpl in Hfuel |- *.
    destruct fuel as [|fuel]; [lia|]. cbn [name_loop].
    rewrite length_app. simpl length.
    replace (length pre <? _) with true by (symmetry; apply Nat.ltb_lt; lia).
    rewrite getitem_at. simpl bindf.
    replace (Byte.to_nat l =? 0) with false
      by (symmetry; apply Nat.eqb_neq; lia).
    rewrite getitem_next. simpl bindf.
    rewrite <- app_assoc. rewrite slice_value by exact Hr.
    unfold name_flow. simpl first_value.
    unfold name_type at 1. rewrite is_type_two.
    destruct (Byte.to_nat t =? 9); [reflexivity|].
    destruct (Byte.to_nat t =? 8); [reflexivity|]. simpl orb. cbv iota.
    specialize (IH e (pre ++ l :: t :: v) fuel Hrs' He).
    replace (length pre + 1 + Byte.to_nat l) with (length (pre ++ l :: t :: v))
      by (rewrite length_app; simpl; lia).
    rewrite <- app_assoc in IH. simpl in IH.
    rewrite IH; [reflexivity|].
    repeat rewrite length_app in Hfuel. rewrite length_app. lia.
Qed.

(** ** The manufacturer-data decoder *)

Lemma manufacturer_loop_ends (fuel : nat) :
  forall (adv_data : bytes) (i : nat),
    length adv_data - i < fuel ->
    manufacturer_loop fuel adv_data i <> Stalls.
Proof.
  induction fuel as [|fuel IH]; intros adv_data i Hfuel; [lia|].
  simpl. destruct (i <? length adv_data) eqn:Hi; [|discriminate].
  apply Nat.ltb_lt in Hi.
  destruct (getitem adv_data i) as [n|]; simpl; [|discriminate].
  destruct (n =? 0) eqn:Hn; [discriminate|]. apply Nat.eqb_neq in Hn.
  destruct (getitem adv_data (i + 1)) as [t|]; simpl; [|discriminate].
  destruct (t =? 255); [discriminate|].
  apply IH. lia.
Qed.

Lemma manufacturer_loop_ending (e : ending) (pre : bytes) (fuel : nat) :
  proper e ->
  length (ending_bytes e) < fuel ->
  manufacturer_loop fuel (pre ++ ending_bytes e) (length pre)
  = manufacturer_flow [] e.
Proof.
  intros He Hfuel. destruct fuel as [|fuel]; [lia|].
  unfold manufacturer_flow. simpl first_value. cbn [manufacturer_loop].
  destruct e as [|rest|l|l t v]; simpl ending_bytes in *.
  - rewrite app_nil_r, Nat.ltb_irrefl. reflexivity.
  - rewrite length_app. simpl length.
    replace (length pre <? length pre + S (length rest)) with true
      by (symmetry; apply Nat.ltb_lt; lia).
    rewrite getitem_at. reflexivity.
  - rewrite length_app. simpl length.
    replace (length pre <? length pre + 1) with true
      by (symmetry; apply Nat.ltb_lt; lia).
    rewrite getitem_at. simpl bindf. simpl in He.
    replace (Byte.to_nat l =? 0) with false
      by (symmetry; apply Nat.eqb_neq; exact He).
    rewrite getitem_past. reflexivity.
  - simpl in He. simpl in Hfuel. rewrite length_app. simpl length.
    replace (length pre <? length pre + S (S (length v))) with true
      by (symmetry; apply Nat.ltb_lt; lia).
    rewrite getitem_at. simpl bindf.
    replace (Byte.to_nat l =? 0) with false
      by (symmetry; apply Nat.eqb_neq; lia).
    rewrite getitem_next. simpl bindf.
    rewrite slice_clamped by exact He.
    unfold manufacturer_type. rewrite is_type_one.
    destruct (Byte.to_nat t =? 255); [reflexivity|].
    destruct fuel as [|fuel]; [lia|]. cbn [manufacturer_loop].
    rewrite length_app. simpl length.
    replace (length pre + 1 + Byte.to_nat l <? length pre + S (S (length v)))
      with false by (symmetry; apply Nat.ltb_ge; lia).
    reflexivity.
Qed.

Lemma manufacturer_loop_records (rs : list ad_record) :
  forall (e : ending) (pre : bytes) (fuel : nat),
    Forall complete rs -> proper e ->
    length (encode rs ++ ending_bytes e) < fuel ->
    manufacturer_loop fuel (pre ++ encode rs ++ ending_bytes e) (length pre)
    = manufacturer_flow rs e.
Proof.
  induction rs as [|r rs IH]; intros e pre fuel Hrs He Hfuel.
  - simpl. apply manufacturer_loop_ending; assumption.
  - inversion Hrs as [|? ? Hr Hrs']; subst. destruct r as [l t v].
    unfold complete in Hr. simpl in Hr.
    simpl encode in *. unfold encode_record in *. simpl in Hfuel |- *.
    destruct fuel as [|fuel]; [lia|]. cbn [manufacturer_loop].
    rewrite length_app. simpl length.
    replace (length pre <? _) with true by (symmetry; apply Nat.ltb_lt; lia).
    rewrite getitem_at. simpl bindf.
    replace (Byte.to_nat l =? 0) with false
      by (symmetry; apply Nat.eqb_neq; lia).
    rewrite getitem_next. simpl bindf.
    rewrite <- app_assoc. rewrite slice_value by exact Hr.
    unfold manufacturer_flow. simpl first_value.
    unfold manufacturer_type at 1. rewrite is_type_one.
    destruct (Byte.to_nat t =? 255); [reflexivity|].
    specialize (IH e (pre ++ l :: t :: v) fuel Hrs' He).
    replace (length pre + 1 + Byte.to_nat l) with (length (pre ++ l :: t :: v))
      by (rewrite length_app; simpl; lia).
    rewrite <- app_assoc in IH. simpl in IH.
    rewrite IH; [reflexivity|].
    repeat rewrite length_app in Hfuel. rewrite length_app. lia.
Qed.

(** ** The service decoder *)

Lemma range_count (i l : nat) (step : nat) :
  0 < l ->
  range (i + 2) (i + 1 + l) step
  = map (fun k => i + 2 + k * step) (seq 0 ((l - 1 + step - 1) / step)).
Proof.
  intros Hl. unfold range.
  replace (i + 1 + l - (i + 2)) with (l - 1) by lia. reflexivity.
Qed.

Lemma steps_succ (s step n : nat) :
  map (fun k => s + k * step) (seq 0 (S n))
  = s :: map (fun k => s + step + k * step) (seq 0 n).
Proof.
  simpl. f_equal; [lia|].
  rewrite <- seq_shift, map_map. apply map_ext. intros k. simpl. lia.
Qed.

Lemma chunks_fuel (size : nat) (n : nat) :
  forall (m : nat) (v : bytes),
    0 < size ->
    length v < size + size * n -> length v < size + size * m ->
    chunks size n v = chunks size m v.
Proof.
  induction n as [|n IH]; intros m v Hs Hn Hm.
  - simpl. destruct m as [|m]; [reflexivity|]. simpl.
    replace (size <=? length v) with false
      by (symmetry; apply Nat.leb_gt; lia).
    reflexivity.
  - simpl. destruct (size <=? length v) eqn:Hv;
      [|destruct m; simpl; [reflexivity|rewrite Hv; reflexivity]].
    apply Nat.leb_le in Hv.
    destruct m as [|m]; [lia|]. simpl.
    replace (size <=? length v) with true by (symmetry; apply Nat.leb_le; lia).
    f_equal. apply IH; [exact Hs| |]; rewrite length_skipn; lia.
Qed.

Lemma for_uuid16_none (adv_data : bytes) (js : list nat) :
  forall services,
    (forall j, In j js -> length adv_data <= j + 1) ->
    for_uuid16 adv_data js services = (services, Ok tt).
Proof.
  induction js as [|j js IH]; intros services H; [reflexivity|].
  simpl. replace (j + 1 <? length adv_data) with false
    by (symmetry; apply Nat.ltb_ge; apply H; left; reflexivity).
  apply IH. intros j' Hj'. apply H. right. exact Hj'.
Qed.

Lemma for_uuid16_chunks (n : nat) :
  forall (pre v rest : bytes) (services : list string),
    2 * n <= length v \/ rest = [] ->
    for_uuid16 (pre ++ v ++ rest)
      (map (fun k => length pre + k * 2) (seq 0 n)) services
    = (services ++ map uuid16_text (chunks 2 n v), Ok tt).
Proof.
  induction n as [|n IH]; intros pre v rest services H.
  - simpl. rewrite app_nil_r. reflexivity.
  - rewrite steps_succ. cbn [for_uuid16 chunks].
    destruct (2 <=? length v) eqn:Hv.
    + apply Nat.leb_le in Hv.
      destruct v as [|lo v]; [simpl in Hv; lia|].
      destruct v as [|hi v]; [simpl in Hv; lia|].
      replace (length pre + 1 <? length (pre ++ (lo :: hi :: v) ++ rest))
        with true
        by (symmetry; apply Nat.ltb_lt; rewrite length_app; simpl; lia).
      replace (slice (pre ++ (lo :: hi :: v) ++ rest) (length pre)
                 (length pre + 2)) with [lo; hi].
      2:{ rewrite <- (Nat.add_0_r (length pre)) at 1.
          rewrite slice_app_skip. reflexivity. }
      unfold unpack_H. rewrite HexFacts.uuid16_str_text.
      specialize (IH (pre ++ [lo; hi]) v rest
                    (services ++ [uuid16_text [lo; hi]])).
      rewrite length_app in IH. simpl length in IH.
      rewrite <- app_assoc in IH. simpl app in IH.
      simpl app. rewrite IH.
      * simpl. rewrite <- app_assoc. reflexivity.
      * destruct H as [H|H]; [left; simpl in H; lia|right; exact H].
    + apply Nat.leb_gt in Hv.
      destruct H as [H|H]; [lia|]. subst rest. rewrite app_nil_r.
      replace (length pre + 1 <? length (pre ++ v)) with false
        by (symmetry; apply Nat.ltb_ge; rewrite length_app; lia).
      rewrite for_uuid16_none.
      * simpl. rewrite app_nil_r. reflexivity.
      * intros j Hj. apply in_map_iff in Hj. destruct Hj as [k [Hk _]].
        rewrite length_app. lia.
Qed.

Lemma for_uuid128_none (adv_data : bytes) (js : list nat) :
  forall services,
    (forall j, In j js -> length adv_data <= j + 15) ->
    for_uuid128 adv_data js services = services.
Proof.
  induction js as [|j js IH]; intros services H; [reflexivity|].
  simpl. replace (j + 15 <? length adv_data) with false
    by (symmetry; apply Nat.ltb_ge; apply H; left; reflexivity).
  apply IH. intros j' Hj'. apply H. right. exact Hj'.
Qed.

Lemma for_uuid128_chunks (n : nat) :
  forall (pre v rest : bytes) (services : list string),
    16 * n <= length v \/ rest = [] ->
    for_uuid128 (pre ++ v ++ rest)
      (map (fun k => length pre + k * 16) (seq 0 n)) services
    = services ++ map uuid128_text (chunks 16 n v).
Proof.
  induction n as [|n IH]; intros pre v rest services H.
  - simpl. rewrite app_nil_r. reflexivity.
  - rewrite steps_succ. cbn [for_uuid128 chunks].
    destruct (16 <=? length v) eqn:Hv.
    + apply Nat.leb_le in Hv.
      replace (length pre + 15 <? length (pre ++ v ++ rest)) with true
        by (symmetry; apply Nat.ltb_lt; rewrite !length_app; lia).
      replace (slice (pre ++ v ++ rest) (length pre) (length pre + 16))
        with (firstn 16 v).
      2:{ rewrite <- (Nat.add_0_r (length pre)) at 1.
          rewrite slice_app_skip. unfold slice. simpl skipn.
          rewrite Nat.sub_0_r. rewrite firstn_app.
          replace (16 - length v) with 0 by lia.
          simpl. rewrite app_nil_r. reflexivity. }
      rewrite HexFacts.uuid128_str_text
        by (rewrite length_firstn; lia).
      specialize (IH (pre ++ firstn 16 v) (skipn 16 v) rest
                    (services ++ [uuid128_text (firstn 16 v)])).
      rewrite length_app, length_firstn in IH.
      replace (Nat.min 16 (length v)) with 16 in IH by lia.
      rewrite <- app_assoc in IH.
      rewrite (app_assoc (firstn 16 v)) in IH.
      rewrite firstn_skipn in IH.
      rewrite IH.
      * simpl. rewrite <- app_assoc. reflexivity.
      * destruct H as [H|H]; [left; rewrite length_skipn; lia|right; exact H].
    + apply Nat.leb_gt in Hv.
      destruct H as [H|H]; [lia|]. subst rest. rewrite app_nil_r.
      replace (length pre + 15 <? length (pre ++ v)) with false
        by (symmetry; apply Nat.ltb_ge; rewrite length_app; lia).
      rewrite for_uuid128_none.
      * simpl. rewrite app_nil_r. reflexivity.
      * intros j Hj. apply in_map_iff in Hj. destruct Hj as [k [Hk _]].
        rewrite length_app. lia.
Qed.

Lemma for_uuid16_in_order (adv_data : bytes) (js : list nat) :
  forall services, exists more status,
    for_uuid16 adv_data js services = (services ++ more, status).
Proof.
  induction js as [|j js IH]; intros services.
  - exists [], (Ok tt). simpl. rewrite app_nil_r. reflexivity.
  - simpl. destruct (j + 1 <? length adv_data); [|apply IH].
    destruct (unpack_H _) as [uuid|e].
    + destruct (IH (services ++ [uuid16_str uuid])) as [more [status H]].
      exists (uuid16_str uuid :: more), status. rewrite H.
      rewrite <- app_assoc. reflexivity.
    + exists [], (Err e). rewrite app_nil_r. reflexivity.
Qed.

Lemma services_loop_ends (fuel : nat) :
  forall (adv_data : bytes) (i : nat) (services : list string),
    length adv_data - i < fuel ->
    snd (services_loop fuel adv_data i services) <> Stalls.
Proof.
  induction fuel as [|fuel IH]; intros adv_data i services Hfuel; [lia|].
  simpl. destruct (i <? length adv_data) eqn:Hi; [|discriminate].
  apply Nat.ltb_lt in Hi.
  destruct (getitem adv_data i) as [n|]; simpl; [|discriminate].
  destruct (n =? 0) eqn:Hn; [discriminate|]. apply Nat.eqb_neq in Hn.
  destruct (getitem adv_data (i + 1)) as [t|]; simpl; [|discriminate].
  destruct ((t =? 2) || (t =? 3)).
  { destruct (for_uuid16 _ _ _) as [services' [u|e]]; simpl; [|discriminate].
    apply IH. lia. }
  destruct ((t =? 6) || (t =? 7)); apply IH; lia.
Qed.

Lemma chunks_whole (size n : nat) (v : bytes) :
  0 < size -> length v < size + size * n ->
  chunks size n v = whole_chunks size v.
Proof.
  intros Hs Hn. unfold whole_chunks. apply chunks_fuel; [exact Hs|exact Hn|].
  destruct size as [|size]; [lia|]. simpl. lia.
Qed.

Lemma services_loop_ending (e : ending) (pre : bytes) (fuel : nat)
  (services : list string) :
  proper e ->
  length (ending_bytes e) < fuel ->
  services_loop fuel (pre ++ ending_bytes e) (length pre) services
  = (services ++ services_of [] e, services_status e).
Proof.
  intros He Hfuel. destruct fuel as [|fuel]; [lia|].
  unfold services_of. simpl flat_map. cbn [services_loop app].
  destruct e as [|rest|l|l t v]; simpl ending_bytes in *;
    unfold services_status.
  - rewrite !app_nil_r, Nat.ltb_irrefl. reflexivity.
  - rewrite length_app. simpl length.
    replace (length pre <? length pre + S (length rest)) with true
      by (symmetry; apply Nat.ltb_lt; lia).
    rewrite getitem_at. rewrite app_nil_r. reflexivity.
  - rewrite length_app. simpl length.
    replace (length pre <? length pre + 1) with true
      by (symmetry; apply Nat.ltb_lt; lia).
    rewrite getitem_at. simpl in He.
    replace (Byte.to_nat l =? 0) with false
      by (symmetry; apply Nat.eqb_neq; exact He).
    rewrite getitem_past. rewrite app_nil_r. reflexivity.
  - simpl in He. simpl in Hfuel.
    assert (Hlen : length (pre ++ l :: t :: v) = length pre + S (S (length v)))
      by (rewrite length_app; reflexivity).
    rewrite Hlen.
    replace (length pre <? length pre + S (S (length v))) with true
      by (symmetry; apply Nat.ltb_lt; lia).
    rewrite getitem_at.
    replace (Byte.to_nat l =? 0) with false
      by (symmetry; apply Nat.eqb_neq; lia).
    rewrite getitem_next.
    destruct fuel as [|fuel]; [lia|].
    assert (Hout : forall acc,
      services_loop (S fuel) (pre ++ l :: t :: v)
        (length pre + 1 + Byte.to_nat l) acc = (acc, Falls)).
    { intros acc. cbn [services_loop]. rewrite Hlen.
      replace (length pre + 1 + Byte.to_nat l <? length pre + S (S (length v)))
        with false by (symmetry; apply Nat.ltb_ge; lia).
      reflexivity. }
    unfold value_services, uuid16_type, uuid128_type.
    rewrite !is_type_two.
    rewrite !range_count by lia.
    replace (pre ++ l :: t :: v) with ((pre ++ [l; t]) ++ v ++ [])
      by (rewrite <- app_assoc, app_nil_r; reflexivity).
    replace (length pre + 2) with (length (pre ++ [l; t]))
      by (rewrite length_app; reflexivity).
    destruct ((Byte.to_nat t =? 2) || (Byte.to_nat t =? 3)).
    { rewrite for_uuid16_chunks by (right; reflexivity).
      rewrite chunks_whole; [|lia|].
      - rewrite <- app_assoc, app_nil_r. apply Hout.
      - pose proof (Nat.div_mod_eq (Byte.to_nat l - 1 + 2 - 1) 2) as Hd.
        pose proof (Nat.mod_upper_bound (Byte.to_nat l - 1 + 2 - 1) 2).
        lia. }
    destruct ((Byte.to_nat t =? 6) || (Byte.to_nat t =? 7)).
    { rewrite for_uuid128_chunks by (right; reflexivity).
      rewrite chunks_whole; [|lia|].
      - rewrite <- app_assoc, app_nil_r. apply Hout.
      - pose proof (Nat.div_mod_eq (Byte.to_nat l - 1 + 16 - 1) 16) as Hd.
        pose proof (Nat.mod_upper_bound (Byte.to_nat l - 1 + 16 - 1) 16).
        lia. }
    rewrite <- app_assoc, !app_nil_r. apply Hout.
Qed.

Lemma services_loop_records (rs : list ad_record) :
  forall (e : ending) (pre : bytes) (fuel : nat) (services : list string),
    Forall complete rs -> Forall aligned rs -> proper e ->
    length (encode rs ++ ending_bytes e) < fuel ->
    services_loop fuel (pre ++ encode rs ++ ending_bytes e) (length pre)
      services
    = (services ++ services_of rs e, services_status e).
Proof.
  induction rs as [|r rs IH]; intros e pre fuel services Hrs Hal He Hfuel.
  - simpl. apply services_loop_ending; assumption.
  - inversion Hrs as [|? ? Hr Hrs']; subst.
    inversion Hal as [|? ? Ha Hal']; subst. destruct r as [l t v].
    unfold complete in Hr. simpl in Hr.
    destruct Ha as [Ha16 Ha128]. cbn [ad_type ad_value] in Ha16, Ha128.
    unfold uuid16_type in Ha16. unfold uuid128_type in Ha128.
    rewrite is_type_two in Ha16, Ha128.
    simpl encode in *. unfold encode_record in *. simpl in Hfuel |- *.
    rewrite <- app_assoc.
    repeat rewrite length_app in Hfuel.
    destruct fuel as [|fuel]; [lia|]. cbn [services_loop].
    assert (Hlen : length (pre ++ l :: t :: v ++ encode rs ++ ending_bytes e)
                   = length pre + S (S (length v
                       + length (encode rs ++ ending_bytes e))))
      by (rewrite length_app; simpl; rewrite length_app; reflexivity).
    rewrite Hlen.
    replace (length pre <? _) with true by (symmetry; apply Nat.ltb_lt; lia).
    rewrite getitem_at.
    replace (Byte.to_nat l =? 0) with false
      by (symmetry; apply Nat.eqb_neq; lia).
    rewrite getitem_next.
    assert (Hnext : forall acc,
      services_loop fuel (pre ++ l :: t :: v ++ encode rs ++ ending_bytes e)
        (length pre + 1 + Byte.to_nat l) acc
      = (acc ++ services_of rs e, services_status e)).
    { intros acc.
      specialize (IH e (pre ++ l :: t :: v) fuel acc Hrs' Hal' He).
      replace (length pre + 1 + Byte.to_nat l)
        with (length (pre ++ l :: t :: v))
        by (rewrite length_app; simpl; lia).
      rewrite <- app_assoc in IH. simpl in IH. apply IH.
      rewrite length_app. lia. }
    unfold services_of. simpl flat_map.
    unfold record_services at 1. simpl ad_type. simpl ad_value.
    unfold value_services at 1, uuid16_type, uuid128_type.
    rewrite !is_type_two.
    rewrite !range_count by lia.
    replace (pre ++ l :: t :: v ++ encode rs ++ ending_bytes e)
      with ((pre ++ [l; t]) ++ v ++ (encode rs ++ ending_bytes e))
      by (rewrite <- app_assoc; reflexivity).
    replace (length pre + 2) with (length (pre ++ [l; t]))
      by (rewrite length_app; reflexivity).
    destruct ((Byte.to_nat t =? 2) || (Byte.to_nat t =? 3)) eqn:H16.
    { specialize (Ha16 eq_refl).
      pose proof (Nat.div_mod_eq (length v) 2) as Hd.
      assert (Hn : (Byte.to_nat l - 1 + 2 - 1) / 2 = length v / 2).
      { symmetry. apply Nat.div_unique with (r := 1); lia. }
      rewrite Hn.
      rewrite for_uuid16_chunks by (left; lia).
      rewrite chunks_whole by lia.
      replace ((pre ++ [l; t]) ++ v ++ encode rs ++ ending_bytes e)
        with (pre ++ l :: t :: v ++ encode rs ++ ending_bytes e)
        by (rewrite <- app_assoc; reflexivity).
      rewrite Hnext. unfold services_of.
      rewrite <- !app_assoc. reflexivity. }
    destruct ((Byte.to_nat t =? 6) || (Byte.to_nat t =? 7)) eqn:H128.
    { specialize (Ha128 eq_refl).
      pose proof (Nat.div_mod_eq (length v) 16) as Hd.
      assert (Hn : (Byte.to_nat l - 1 + 16 - 1) / 16 = length v / 16).
      { symmetry. apply Nat.div_unique with (r := 15); lia. }
      rewrite Hn.
      rewrite for_uuid128_chunks by (left; lia).
      rewrite chunks_whole by lia.
      replace ((pre ++ [l; t]) ++ v ++ encode rs ++ ending_bytes e)
        with (pre ++ l :: t :: v ++ encode rs ++ ending_bytes e)
        by (rewrite <- app_assoc; reflexivity).
      rewrite Hnext. unfold services_of.
      rewrite <- !app_assoc. reflexivity. }
    replace ((pre ++ [l; t]) ++ v ++ encode rs ++ ending_bytes e)
      with (pre ++ l :: t :: v ++ encode rs ++ ending_bytes e)
      by (rewrite <- app_assoc; reflexivity).
    rewrite Hnext. unfold services_of. reflexivity.
Qed.

End DecoderFacts.

Module ParseFacts.

Lemma parse_sound (fuel : nat) :
  forall b : bytes,
    length b <= fuel ->
    b = encode (fst (parse fuel b)) ++ ending_bytes (snd (parse fuel b))
    /\ Forall complete (fst (parse fuel b))
    /\ proper (snd (parse fuel b)).
Proof.
  induction fuel as [|fuel IH]; intros b Hb.
  - destruct b; [|simpl in Hb; lia]. simpl. auto.
  - destruct b as [|l after_len]; [simpl; auto|].
    cbn [parse]. destruct (Byte.to_nat l =? 0) eqn:Hl.
    { apply Nat.eqb_eq in Hl. simpl.
      assert (l = x00) as ->.
      { pose proof (Byte.of_to_nat l) as H. rewrite Hl in H.
        simpl in H. congruence. }
      auto. }
    apply Nat.eqb_neq in Hl.
    destruct after_len as [|t rest]; [simpl; auto|].
    destruct (1 + length rest <? Byte.to_nat l) eqn:Hcut.
    { apply Nat.ltb_lt in Hcut. simpl. auto. }
    apply Nat.ltb_ge in Hcut.
    destruct (parse fuel (skipn (Byte.to_nat l - 1) rest)) as [rs e] eqn:Hp.
    specialize (IH (skipn (Byte.to_nat l - 1) rest)).
    rewrite Hp in IH. simpl fst in *. simpl snd in *.
    destruct IH as [Hsplit [Hrs He]].
    { rewrite length_skipn. simpl in Hb. lia. }
    repeat split.
    + simpl. rewrite <- app_assoc. rewrite <- Hsplit.
      rewrite firstn_skipn. reflexivity.
    + constructor; [|exact Hrs]. unfold complete. simpl.
      rewrite length_firstn. lia.
    + exact He.
Qed.

Lemma every_buffer_splits (b : bytes) :
  exists rs e,
    b = encode rs ++ ending_bytes e /\ Forall complete rs /\ proper e.
Proof.
  exists (fst (parse (length b) b)), (snd (parse (length b) b)).
  apply parse_sound. lia.
Qed.

Lemma first_value_inside (kind : byte -> bool) (rs : list ad_record) :
  forall (e : ending) (v : bytes),
    first_value kind rs e = Some v ->
    inside v (encode rs ++ ending_bytes e).
Proof.
  induction rs as [|r rs IH]; intros e v H.
  - simpl in H. destruct e as [| | |l t w]; try discriminate.
    destruct (kind t); [|discriminate]. injection H as <-.
    exists [l; t], []. simpl. rewrite app_nil_r. reflexivity.
  - simpl in H. destruct (kind (ad_type r)).
    + injection H as <-. exists [ad_len r; ad_type r], (encode rs ++ ending_bytes e).
      simpl. unfold encode_record. simpl. rewrite <- app_assoc. reflexivity.
    + destruct (IH e v H) as [before [after Hv]].
      exists (encode_record r ++ before), after.
      simpl. rewrite <- !app_assoc. rewrite Hv. reflexivity.
Qed.

End ParseFacts.

Module DecoderResults.
Import DecoderFacts.

Lemma decode_name_split (rs : list ad_record) (e : ending) :
  Forall complete rs -> proper e ->
  _decode_name (encode rs ++ ending_bytes e) = Return (name_of rs e).
Proof.
  intros Hrs He. unfold _decode_name.
  pose proof (@name_loop_records rs e [] (S (length (encode rs ++ ending_bytes e)))
                Hrs He (Nat.lt_succ_diag_r _)) as H.
  cbn [app] in H. change (length (@nil byte)) with 0 in H.
  rewrite H. unfold name_flow, name_of.
  destruct (first_value name_type rs e) as [v|].
  - unfold text_of. destruct (decode_utf8 v); reflexivity.
  - destruct e; reflexivity.
Qed.

Lemma decode_manufacturer_split (rs : list ad_record) (e : ending) :
  Forall complete rs -> proper e ->
  _decode_manufacturer (encode rs ++ ending_bytes e)
  = Return (manufacturer_of rs e).
Proof.
  intros Hrs He. unfold _decode_manufacturer.
  pose proof (@manufacturer_loop_records rs e []
                (S (length (encode rs ++ ending_bytes e)))
                Hrs He (Nat.lt_succ_diag_r _)) as H.
  cbn [app] in H. change (length (@nil byte)) with 0 in H.
  rewrite H. unfold manufacturer_flow, manufacturer_of.
  destruct (first_value manufacturer_type rs e) as [v|].
  - reflexivity.
  - destruct e; reflexivity.
Qed.

Lemma decode_services_split (rs : list ad_record) (e : ending) :
  Forall complete rs -> Forall aligned rs -> proper e ->
  _decode_services (encode rs ++ ending_bytes e) = Return (services_of rs e).
Proof.
  intros Hrs Hal He. unfold _decode_services.
  pose proof (@services_loop_records rs e []
                (S (length (encode rs ++ ending_bytes e))) []
                Hrs Hal He (Nat.lt_succ_diag_r _)) as H.
  cbn [app] in H. change (length (@nil byte)) with 0 in H.
  rewrite H. destruct e; reflexivity.
Qed.

Lemma decode_services_returns (adv_data : bytes) :
  exists s, _decode_services adv_data = Return s.
Proof.
  unfold _decode_services.
  pose proof (@services_loop_ends (S (length adv_data)) adv_data 0 []) as H.
  destruct (services_loop (S (length adv_data)) adv_data 0 []) as [s st].
  simpl in H. destruct st.
  - exists s; reflexivity.
  - exists s; reflexivity.
  - exists s; reflexivity.
  - exfalso. apply H; [lia|reflexivity].
Qed.

Lemma decode_name_returns (adv_data : bytes) :
  exists n, _decode_name adv_data = Return n.
Proof.
  unfold _decode_name.
  pose proof (@name_loop_ends (S (length adv_data)) adv_data 0) as H.
  destruct (name_loop (S (length adv_data)) adv_data 0);
    try (eexists; reflexivity).
  exfalso. apply H; [lia|reflexivity].
Qed.

Lemma decode_manufacturer_returns (adv_data : bytes) :
  exists m, _decode_manufacturer adv_data = Return m.
Proof.
  unfold _decode_manufacturer.
  pose proof (@manufacturer_loop_ends (S (length adv_data)) adv_data 0) as H.
  destruct (manufacturer_loop (S (length adv_data)) adv_data 0);
    try (eexists; reflexivity).
  exfalso. apply H; [lia|reflexivity].
Qed.

End DecoderResults.

(* ===================================================================== *)
(** * The decoders: results *)
(* ===================================================================== *)

Import DecoderFacts DecoderResults ParseFacts.

Example uuid16_text_180A : uuid16_text [x0a; x18] = "0x180A"%string.
Proof. reflexivity. Qed.

Example uuid128_text_counting :
  uuid128_text [x00; x01; x02; x03; x04; x05; x06; x07;
                x08; x09; x0a; x0b; x0c; x0d; x0e; x0f]
  = "0f0e0d0c-0b0a-0908-0706-050403020100"%string.
Proof. reflexivity. Qed.

Example decode_name_not_utf8 : _decode_name [x03; x09; xc3; x28] = Return None.
Proof. reflexivity. Qed.

(** C1, as amended.  In the fourteen bytes of the worked example the record
    at offset 3 has length byte 0x08 and type byte 0x09, so it is a complete
    local name of seven bytes: "Test1" followed by the bytes 0x02 and 0x03.
    The record after it has length 0x0A and type 0x18 and runs past the end,
    so no UUID is found, and there is no manufacturer data.  The same three
    fields with their length bytes written out (flags; length 6, type 0x08,
    "Test1"; length 3, type 0x03, 0x0A 0x18) decode to the name "Test1", the
    single service "0x180A" and no manufacturer data. *)
Theorem example_buffer_decoding :
  _decode_name example_buffer
  = Return (Some ("Test1" ++ String "002" (String "003" EmptyString))%string)
  /\ _decode_services example_buffer = Return []
  /\ _decode_manufacturer example_buffer = Return None
  /\ _decode_name framed_buffer = Return (Some "Test1"%string)
  /\ _decode_services framed_buffer = Return ["0x180A"%string]
  /\ _decode_manufacturer framed_buffer = Return None.
Proof. vm_compute. repeat split. Qed.

(** C1, as stated, fails: on the fourteen bytes of the worked example the
    name is not "Test1" and the service list is not ["0x180A"]. *)
Lemma example_buffer_is_not_Test1 :
  _decode_name example_buffer <> Return (Some "Test1"%string)
  /\ _decode_services example_buffer <> Return ["0x180A"%string].
Proof. split; vm_compute; discriminate. Qed.




(** C5, as amended.  Every buffer, however malformed, splits into complete
    records and an ending, and on it each decoder returns a value: it neither
    raises nor runs forever.  The name and the manufacturer data are those
    of the first matching record, where a record cut short by the end of the
    buffer counts with the part of its value that the buffer holds.  When
    the scan itself fails ([Throws]: a length byte with no type byte after
    it, or a name that is not UTF-8) the decoder returns what it had: [None]
    for the name, [None] for the manufacturer data, the UUIDs collected so
    far for the services. *)
Theorem decoders_return_on_every_buffer (adv_data : bytes) :
  exists rs e,
    adv_data = encode rs ++ ending_bytes e
    /\ Forall complete rs /\ proper e
    /\ _decode_name adv_data = Return (name_of rs e)
    /\ _decode_manufacturer adv_data = Return (manufacturer_of rs e)
    /\ (exists s, _decode_services adv_data = Return s
                  /\ (Forall aligned rs -> s = services_of rs e))
    /\ (forall x, name_loop (S (length adv_data)) adv_data 0 = Throws x ->
                  _decode_name adv_data = Return None)
    /\ (forall x, manufacturer_loop (S (length adv_data)) adv_data 0 = Throws x ->
                  _decode_manufacturer adv_data = Return None)
    /\ (forall acc x,
          services_loop (S (length adv_data)) adv_data 0 [] = (acc, Throws x) ->
          _decode_services adv_data = Return acc)
    /\ (forall l, e = Dangling l ->
          (first_value name_type rs e = None ->
           name_loop (S (length adv_data)) adv_data 0 = Throws IndexError)
          /\ (first_value manufacturer_type rs e = None ->
              manufacturer_loop (S (length adv_data)) adv_data 0
              = Throws IndexError)
          /\ (Forall aligned rs ->
              services_loop (S (length adv_data)) adv_data 0 []
              = (flat_map record_services rs, Throws IndexError))).
Proof.
  destruct (every_buffer_splits adv_data) as [rs [e [Hsplit [Hrs He]]]].
  exists rs, e.
  split; [exact Hsplit|]. split; [exact Hrs|]. split; [exact He|].
  split; [rewrite Hsplit; apply decode_name_split; assumption|].
  split; [rewrite Hsplit; apply decode_manufacturer_split; assumption|].
  split.
  { destruct (decode_services_returns adv_data) as [s Hs].
    exists s. split; [exact Hs|]. intros Hal.
    rewrite Hsplit, decode_services_split in Hs by assumption. congruence. }
  split; [intros x H; unfold _decode_name; rewrite H; reflexivity|].
  split; [intros x H; unfold _decode_manufacturer; rewrite H; reflexivity|].
  split; [intros acc x H; unfold _decode_services; rewrite H; reflexivity|].
  intros l ->. rewrite Hsplit.
  split; [|split].
  - intros Hnone.
    pose proof (@name_loop_records rs (Dangling l) []
                  (S (length (encode rs ++ ending_bytes (Dangling l))))
                  Hrs He (Nat.lt_succ_diag_r _)) as H.
    cbn [app] in H. change (length (@nil byte)) with 0 in H.
    rewrite H. unfold name_flow. rewrite Hnone. reflexivity.
  - intros Hnone.
    pose proof (@manufacturer_loop_records rs (Dangling l) []
                  (S (length (encode rs ++ ending_bytes (Dangling l))))
                  Hrs He (Nat.lt_succ_diag_r _)) as H.
    cbn [app] in H. change (length (@nil byte)) with 0 in H.
    rewrite H. unfold manufacturer_flow. rewrite Hnone. reflexivity.
  - intros Hal.
    pose proof (@services_loop_records rs (Dangling l) []
                  (S (length (encode rs ++ ending_bytes (Dangling l)))) []
                  Hrs Hal He (Nat.lt_succ_diag_r _)) as H.
    cbn [app] in H. change (length (@nil byte)) with 0 in H.
    rewrite H. unfold services_of. rewrite app_nil_r. reflexivity.
Qed.

(** C5, as stated, fails: manufacturer data that declares four value bytes
    and has one is a malformed buffer, and the decoder does not return
    [None] on it but the one byte it found. *)
Lemma cut_manufacturer_is_returned :
  cut_manufacturer_buffer = ending_bytes (Truncated x05 xff [x4c])
  /\ proper (Truncated x05 xff [x4c])
  /\ _decode_manufacturer cut_manufacturer_buffer = Return (Some [x4c])
  /\ _decode_manufacturer cut_manufacturer_buffer <> Return None.
Proof.
  split; [reflexivity|]. split; [simpl; lia|].
  split; [reflexivity|]. vm_compute. discriminate.
Qed.

(** C6.  On a well-formed buffer (complete records, UUID lists holding
    whole UUIDs, then the end of the buffer or a zero length byte) the
    service decoder returns, record after record in buffer order, the UUIDs
    of every 16-bit list (types 0x02, 0x03), each pair [lo; hi] written
    "0x" and the four upper-case digits of [hi] then [lo], and of every
    128-bit list (types 0x06, 0x07), each sixteen bytes written in reverse
    order as lower-case digits grouped 8-4-4-4-12. *)
Theorem services_of_well_formed_buffer (rs : list ad_record) (e : ending) :
  Forall complete rs -> Forall aligned rs -> ~ cut_short e ->
  _decode_services (encode rs ++ ending_bytes e)
  = Return (flat_map record_services rs).
Proof.
  intros Hrs Hal He.
  rewrite decode_services_split; try assumption.
  - unfold services_of. destruct e; simpl in He; try tauto;
      rewrite app_nil_r; reflexivity.
  - destruct e; simpl in *; tauto.
Qed.

Lemma services_of_well_formed_buffer_witness :
  _decode_services (encode two_lists ++ ending_bytes Clean)
  = Return ["0x180A"; "0x180F"; "0f0e0d0c-0b0a-0908-0706-050403020100"]%string.
Proof.
  apply (@services_of_well_formed_buffer two_lists Clean).
  - repeat constructor.
  - repeat constructor; simpl; intros; try discriminate; reflexivity.
  - simpl. tauto.
Defined.

(* ===================================================================== *)
(** * The registry *)
(* ===================================================================== *)

Module RegistryFacts.

Lemma lookup_setitem_same (mac : string) (v : device) (d : registry) :
  lookup mac (setitem mac v d) = Some v.
Proof.
  induction d as [|[k u] d IH]; simpl.
  - rewrite String.eqb_refl. reflexivity.
  - destruct (String.eqb mac k) eqn:Hk; simpl; rewrite Hk; [reflexivity|exact IH].
Qed.

Lemma lookup_setitem_other (mac mac' : string) (v : device) (d : registry) :
  mac <> mac' ->
  lookup mac' (setitem mac v d) = lookup mac' d.
Proof.
  intros Hne. induction d as [|[k u] d IH]; simpl.
  - replace (String.eqb mac' mac) with false; [reflexivity|].
    symmetry. apply String.eqb_neq. congruence.
  - destruct (String.eqb mac k) eqn:Hk; simpl.
    + apply String.eqb_eq in Hk. subst k.
      replace (String.eqb mac' mac) with false; [reflexivity|].
      symmetry. apply String.eqb_neq. congruence.
    + rewrite IH. reflexivity.
Qed.

Lemma lookup_None_keys (mac : string) (d : registry) :
  lookup mac d = None -> ~ In mac (map fst d).
Proof.
  induction d as [|[k u] d IH]; simpl; intros H; [tauto|].
  destruct (String.eqb mac k) eqn:Hk; [discriminate|].
  apply String.eqb_neq in Hk. intros [Hin|Hin]; [congruence|].
  exact (IH H Hin).
Qed.

Lemma setitem_new_keys (mac : string) (v : device) (d : registry) :
  lookup mac d = None ->
  map fst (setitem mac v d) = map fst d ++ [mac].
Proof.
  induction d as [|[k u] d IH]; simpl; intros H; [reflexivity|].
  destruct (String.eqb mac k); [discriminate|].
  simpl. rewrite IH by exact H. reflexivity.
Qed.

Lemma setitem_new_NoDup (mac : string) (v : device) (d : registry) :
  lookup mac d = None ->
  NoDup (map fst d) -> NoDup (map fst (setitem mac v d)).
Proof.
  intros Hnone Hd. rewrite setitem_new_keys by exact Hnone.
  apply NoDup_app; [exact Hd|constructor; [simpl; tauto|constructor]|].
  intros k Hk [<-|[]]. exact (lookup_None_keys _ _ Hnone Hk).
Qed.

Lemma contains_false (mac : string) (d : registry) :
  contains mac d = false <-> lookup mac d = None.
Proof.
  unfold contains. destruct (lookup mac d); split; congruence.
Qed.

(** One call of the handler never touches a stored record. *)
Lemma irq_keeps (self : scanner) (event : Z) (data : report)
  (mac : string) (entry : device) :
  lookup mac (devices_found self) = Some entry ->
  lookup mac (devices_found (fst (_irq self event data))) = Some entry.
Proof.
  intros H. unfold _irq.
  destruct (event =? 5)%Z.
  - destruct (contains (mac_of (r_addr data)) (devices_found self)) eqn:Hc;
      simpl; [exact H|].
    apply contains_false in Hc.
    rewrite lookup_setitem_other; [exact H|]. congruence.
  - destruct (event =? 6)%Z; simpl; exact H.
Qed.

Lemma irq_NoDup (self : scanner) (event : Z) (data : report) :
  NoDup (map fst (devices_found self)) ->
  NoDup (map fst (devices_found (fst (_irq self event data)))).
Proof.
  intros H. unfold _irq.
  destruct (event =? 5)%Z.
  - destruct (contains (mac_of (r_addr data)) (devices_found self)) eqn:Hc;
      simpl; [exact H|].
    apply contains_false in Hc. apply setitem_new_NoDup; assumption.
  - destruct (event =? 6)%Z; simpl; exact H.
Qed.

Lemma irq_led (self : scanner) (event : Z) (data : report) :
  led (fst (_irq self event data)) = led self.
Proof.
  unfold _irq. destruct (event =? 5)%Z.
  - destruct (negb _); reflexivity.
  - destruct (event =? 6)%Z; reflexivity.
Qed.

Lemma deliver_cons (self : scanner) (event : Z) (data : report)
  (rest : list (Z * report)) :
  fst (deliver self ((event, data) :: rest))
  = fst (deliver (fst (_irq self event data)) rest).
Proof.
  simpl. destruct (_irq self event data) as [self1 out1]. simpl.
  destruct (deliver self1 rest) as [self2 out2]. reflexivity.
Qed.

Lemma deliver_keeps (events : list (Z * report)) :
  forall (self : scanner) (mac : string) (entry : device),
    lookup mac (devices_found self) = Some entry ->
    lookup mac (devices_found (fst (deliver self events))) = Some entry.
Proof.
  induction events as [|[event data] rest IH]; intros self mac entry H.
  - exact H.
  - rewrite deliver_cons. apply IH. apply irq_keeps. exact H.
Qed.

Lemma deliver_NoDup (events : list (Z * report)) :
  forall self : scanner,
    NoDup (map fst (devices_found self)) ->
    NoDup (map fst (devices_found (fst (deliver self events)))).
Proof.
  induction events as [|[event data] rest IH]; intros self H.
  - exact H.
  - rewrite deliver_cons. apply IH. apply irq_NoDup. exact H.
Qed.

Lemma deliver_led (events : list (Z * report)) :
  forall self : scanner, led (fst (deliver self events)) = led self.
Proof.
  induction events as [|[event data] rest IH]; intros self.
  - reflexivity.
  - rewrite deliver_cons, IH. apply irq_led.
Qed.

(** What the first report for an address stores. *)
Lemma irq_inserts (self : scanner) (data : report) :
  contains (mac_of (r_addr data)) (devices_found self) = false ->
  exists entry,
    lookup (mac_of (r_addr data)) (devices_found (fst (_irq self 5 data)))
    = Some entry
    /\ name entry
       = or_else (value_of (_decode_name (r_adv_data data)) None) "Unknown"
    /\ rssi entry = r_rssi data.
Proof.
  intros Hc. unfold _irq. simpl. rewrite Hc. simpl.
  eexists. split; [apply lookup_setitem_same|]. split; reflexivity.
Qed.

Lemma no_name_decoded (adv_data : bytes) :
  no_name adv_data ->
  _decode_name adv_data = Return None
  \/ _decode_name adv_data = Return (Some EmptyString).
Proof.
  intros H. destruct H as [rs e Hrs He Hv|rs e v Hrs He Hv Hbad|rs e Hrs He Hv];
    rewrite DecoderResults.decode_name_split by assumption;
    unfold name_of; rewrite Hv.
  - left. reflexivity.
  - left. unfold text_of, decode_utf8. rewrite Hbad. reflexivity.
  - right. reflexivity.
Qed.

(** A property of the scanner that every handler call keeps is kept while
    the session waits, whatever the radio and the clock do. *)
Section Invariant.

Variable P : scanner -> Prop.
Hypothesis P_irq :
  forall self event data, P self -> P (fst (_irq self event data)).

Lemma deliver_inv (events : list (Z * report)) :
  forall self : scanner, P self -> P (fst (deliver self events)).
Proof.
  induction events as [|[event data] rest IH]; intros self H; [exact H|].
  rewrite deliver_cons. apply IH. apply P_irq. exact H.
Qed.

Lemma suspended_inv (events : list (Z * report)) (m : machine) :
  P (self m) -> P (self (suspended events m)).
Proof.
  intros H. unfold suspended.
  pose proof (deliver_inv events H) as Hd.
  destruct (deliver (self m) events) as [self' out]. exact Hd.
Qed.

Lemma wait_loop_inv (fuel : nat) (w : world) (d start : Z) :
  forall (k : nat) (m : machine),
    P (self m) -> P (self (fst (wait_loop fuel w d start k m))).
Proof.
  induction fuel as [|fuel IH]; intros k m H; [exact H|].
  simpl. destruct (negb (scan_complete (self m))); [|exact H].
  destruct (_ >? _)%Z; [exact H|].
  destruct (sleep w k) as [events interrupt].
  assert (H1 : P (self (suspended events (emit (SleepMs 100) m))))
    by (apply suspended_inv; exact H).
  destruct interrupt; [exact H1|]. apply IH. exact H1.
Qed.

End Invariant.

End RegistryFacts.

Import RegistryFacts.

(** C4.  Once the first report for an address has stored a record, the
    record holds that report's signal strength, and whatever events follow
    in the session (further reports for the same address among them) the
    registry keeps exactly that record under the address, and no address
    ever occurs twice among its keys.  The same holds of the session as it
    waits: from the state the first report leaves, the wait loop ends, on
    any radio and any clock, with that record unchanged and the keys free
    of duplicates. *)
Theorem first_report_wins (self : scanner) (data : report)
  (later : list (Z * report)) :
  NoDup (map fst (devices_found self)) ->
  contains (mac_of (r_addr data)) (devices_found self) = false ->
  let mac := mac_of (r_addr data) in
  let self1 := fst (_irq self 5 data) in
  let keys := fun s : scanner => map fst (devices_found s) in
  exists entry,
    lookup mac (devices_found self1) = Some entry
    /\ rssi entry = r_rssi data
    /\ lookup mac (devices_found (fst (deliver self1 later))) = Some entry
    /\ NoDup (keys (fst (deliver self1 later)))
    /\ forall fuel w d start k m,
         Session.self m = self1 ->
         let m' := fst (wait_loop fuel w d start k m) in
         lookup mac (devices_found (Session.self m')) = Some entry
         /\ NoDup (keys (Session.self m')).
Proof.
  intros Hd Hc mac self1 keys.
  destruct (irq_inserts self data Hc) as [entry [Hl [_ Hr]]].
  assert (Hk : NoDup (keys self1)) by (apply irq_NoDup; exact Hd).
  exists entry. split; [exact Hl|]. split; [exact Hr|].
  split; [apply deliver_keeps; exact Hl|].
  split; [apply deliver_NoDup; exact Hk|].
  intros fuel w d start k m Hm m'. split.
  - apply (@wait_loop_inv
             (fun s => lookup mac (devices_found s) = Some entry)).
    + intros s event data0 H. apply irq_keeps. exact H.
    + rewrite Hm. exact Hl.
  - apply (@wait_loop_inv (fun s => NoDup (keys s))).
    + intros s event data0 H. apply irq_NoDup. exact H.
    + rewrite Hm. exact Hk.
Qed.

Lemma first_report_wins_witness :
  exists entry,
    lookup "AA:BB:CC:01:02:03"
      (devices_found
         (fst (deliver (fst (_irq fresh 5 (report_at (-55) framed_buffer)))
                 [(5%Z, report_at (-40) framed_buffer)])))
    = Some entry
    /\ rssi entry = (-55)%Z.
Proof.
  destruct (@first_report_wins fresh (report_at (-55) framed_buffer)
              [(5%Z, report_at (-40) framed_buffer)])
    as [entry [_ [Hrssi [Hkept _]]]].
  - constructor.
  - reflexivity.
  - exists entry. split; [exact Hkept|exact Hrssi].
Defined.

(** C10.  A report from a new address always stores a record whose name is
    a non-empty string, and when its advertising data yields no name (no
    name record, a name that is not valid UTF-8, or an empty name) the name
    stored is "Unknown". *)
Theorem nameless_report_is_Unknown (self : scanner) (data : report) :
  contains (mac_of (r_addr data)) (devices_found self) = false ->
  exists entry,
    lookup (mac_of (r_addr data)) (devices_found (fst (_irq self 5 data)))
    = Some entry
    /\ name entry <> EmptyString
    /\ (no_name (r_adv_data data) -> name entry = "Unknown"%string).
Proof.
  intros Hc. destruct (irq_inserts self data Hc) as [entry [Hl [Hn _]]].
  exists entry. split; [exact Hl|]. rewrite Hn. split.
  - destruct (_decode_name (r_adv_data data)) as [[[|c s]|]| |]; simpl;
      discriminate.
  - intros Hno. destruct (no_name_decoded Hno) as [H|H]; rewrite H; reflexivity.
Qed.

Lemma nameless_report_is_Unknown_witness :
  exists entry,
    lookup "AA:BB:CC:01:02:03"
      (devices_found (fst (_irq fresh 5 (report_at (-55) [x02; x01; x06]))))
    = Some entry
    /\ name entry = "Unknown"%string.
Proof.
  destruct (@nameless_report_is_Unknown fresh (report_at (-55) [x02; x01; x06]))
    as [entry [Hl [_ Hn]]].
  - reflexivity.
  - exists entry. split; [exact Hl|]. apply Hn.
    apply (@no_name_record [flags] Clean).
    + repeat constructor.
    + exact I.
    + reflexivity.
Defined.

(* ===================================================================== *)
(** * The ranking *)
(* ===================================================================== *)

Module ReportFacts.

Section Insertion.

Variable A : Type.
Variable key : A -> Z.
Variable reverse : bool.

Lemma insert_perm (x : A) (l : list A) :
  Permutation (x :: l) (insert (precedes key reverse) x l).
Proof.
  induction l as [|y l IH]; simpl; [apply Permutation_refl|].
  destruct (precedes key reverse y x); [|apply Permutation_refl].
  eapply perm_trans; [apply perm_swap|]. apply perm_skip. exact IH.
Qed.

Lemma sorted_perm (l : list A) : Permutation l (sorted key reverse l).
Proof.
  induction l as [|x l IH]; simpl; [constructor|].
  eapply perm_trans; [apply perm_skip; exact IH|]. apply insert_perm.
Qed.

Lemma in_order_trans (a c d : A) :
  in_order key reverse a c -> in_order key reverse c d ->
  in_order key reverse a d.
Proof. unfold in_order. destruct reverse; lia. Qed.

Lemma insert_ordered (x : A) (l : list A) :
  StronglySorted (in_order key reverse) l ->
  StronglySorted (in_order key reverse) (insert (precedes key reverse) x l).
Proof.
  induction l as [|y l IH]; intros Hl; simpl.
  - constructor; constructor.
  - inversion Hl as [|? ? Hl' Hy]; subst.
    destruct (precedes key reverse y x) eqn:Hp.
    + constructor; [apply IH; exact Hl'|].
      assert (Hyx : in_order key reverse y x).
      { unfold precedes in Hp. unfold in_order. destruct reverse;
          apply Z.ltb_lt in Hp; lia. }
      rewrite Forall_forall in *. intros z Hz.
      apply (Permutation_in _ (Permutation_sym (insert_perm x l))) in Hz.
      destruct Hz as [<-|Hz]; [exact Hyx|apply Hy; exact Hz].
    + assert (Hxy : in_order key reverse x y).
      { unfold precedes in Hp. unfold in_order. destruct reverse;
          apply Z.ltb_ge in Hp; lia. }
      constructor; [exact Hl|]. constructor; [exact Hxy|].
      rewrite Forall_forall in *. intros z Hz.
      eapply in_order_trans; [exact Hxy|apply Hy; exact Hz].
Qed.

Lemma sorted_ordered (l : list A) :
  StronglySorted (in_order key reverse) (sorted key reverse l).
Proof.
  induction l as [|x l IH]; simpl; [constructor|].
  apply insert_ordered. exact IH.
Qed.

(** Among the elements of one key, insertion keeps the input order. *)
Lemma insert_stable (s : Z) (x : A) (l : list A) :
  filter (fun a => (key a =? s)%Z) (insert (precedes key reverse) x l)
  = filter (fun a => (key a =? s)%Z) (x :: l).
Proof.
  induction l as [|y l IH]; [reflexivity|].
  simpl insert. destruct (precedes key reverse y x) eqn:Hp; [|reflexivity].
  simpl filter in *. rewrite IH.
  destruct (key x =? s)%Z eqn:Hx; [|reflexivity].
  destruct (key y =? s)%Z eqn:Hy; [|reflexivity].
  apply Z.eqb_eq in Hx, Hy. unfold precedes in Hp.
  destruct reverse; apply Z.ltb_lt in Hp; lia.
Qed.

Lemma sorted_stable (s : Z) (l : list A) :
  filter (fun a => (key a =? s)%Z) (sorted key reverse l)
  = filter (fun a => (key a =? s)%Z) l.
Proof.
  induction l as [|x l IH]; [reflexivity|].
  simpl sorted. fold (sorted key reverse l).
  change (fold_right _ [] l) with (sorted key reverse l).
  rewrite insert_stable. simpl. rewrite IH. reflexivity.
Qed.

End Insertion.

End ReportFacts.

Example ranking_of_three_devices :
  map fst (sorted_devices three_devices) = ["BB"; "AA"; "CC"]%string.
Proof. reflexivity. Qed.

(** C7.  The ranking that [print_results] and [print_summary] compute is
    the registry's (address, record) pairs rearranged so that signal
    strength never rises along it, and the pairs of any one signal strength
    stand in the order in which the registry holds them, its insertion
    order. *)
Theorem ranking_is_sorted_and_stable (devices_found : registry) :
  StronglySorted (fun a c => (rssi (snd c) <= rssi (snd a))%Z)
    (sorted_devices devices_found)
  /\ Permutation devices_found (sorted_devices devices_found)
  /\ forall s : Z,
       filter (fun x => (rssi (snd x) =? s)%Z) (sorted_devices devices_found)
       = filter (fun x => (rssi (snd x) =? s)%Z) devices_found.
Proof.
  split; [|split].
  - exact (ReportFacts.sorted_ordered (fun x => rssi (snd x)) true devices_found).
  - apply ReportFacts.sorted_perm.
  - intros s.
    exact (ReportFacts.sorted_stable (fun x => rssi (snd x)) true s devices_found).
Qed.

(* ===================================================================== *)
(** * The scan session *)
(* ===================================================================== *)

Module SessionFacts.

Lemma no_teardown_refl (m : machine) : no_teardown m m.
Proof. split; reflexivity. Qed.

Lemma no_teardown_trans (m1 m2 m3 : machine) :
  no_teardown m1 m2 -> no_teardown m2 m3 -> no_teardown m1 m3.
Proof. intros [H1 H2] [H3 H4]. split; congruence. Qed.

Lemma no_teardown_emit (a : action) (m : machine) :
  teardown a = false -> no_teardown m (emit a m).
Proof.
  intros Ha. split; [|reflexivity]. unfold emit. simpl.
  rewrite filter_app. simpl. rewrite Ha. apply app_nil_r.
Qed.

Lemma filter_teardown_Stdout (out : list string) :
  filter teardown (map Stdout out) = [].
Proof. induction out as [|s out IH]; [reflexivity|exact IH]. Qed.

Lemma no_teardown_suspended (events : list (Z * report)) (m : machine) :
  no_teardown m (suspended events m).
Proof.
  unfold suspended.
  pose proof (deliver_led events (self m)) as Hled.
  destruct (deliver (self m) events) as [self' out]. simpl in Hled.
  split; simpl; [|exact Hled].
  rewrite filter_app, filter_teardown_Stdout. apply app_nil_r.
Qed.

Lemma no_teardown_call (a : action) (raises : option exn) (m : machine) :
  teardown a = false -> no_teardown m (fst (call a raises m)).
Proof.
  intros Ha. unfold call. destruct raises; simpl; apply no_teardown_emit; exact Ha.
Qed.

Lemma no_teardown_andthen (m : machine) (r : machine * flow unit)
  (k : machine -> machine * flow unit) :
  no_teardown m (fst r) ->
  (forall m1, no_teardown m m1 -> no_teardown m (fst (k m1))) ->
  no_teardown m (fst (andthen r k)).
Proof.
  intros Hr Hk. destruct r as [m1 [| | |]]; simpl in *; auto.
Qed.

Lemma no_teardown_wait_loop (fuel : nat) (w : world) (d start : Z) :
  forall (k : nat) (m : machine),
    no_teardown m (fst (wait_loop fuel w d start k m)).
Proof.
  induction fuel as [|fuel IH]; intros k m; [apply no_teardown_refl|].
  simpl. destruct (negb (scan_complete (self m))); [|apply no_teardown_refl].
  destruct (_ >? _)%Z.
  - simpl. apply no_teardown_emit. reflexivity.
  - destruct (sleep w k) as [events interrupt].
    assert (H : no_teardown m (suspended events (emit (SleepMs 100) m))).
    { apply no_teardown_trans with (m2 := emit (SleepMs 100) m);
        [apply no_teardown_emit; reflexivity|apply no_teardown_suspended]. }
    destruct interrupt; [exact H|].
    eapply no_teardown_trans; [exact H|apply IH].
Qed.

Lemma no_teardown_try_body (fuel : nat) (w : world) (d : Z) (m : machine) :
  no_teardown m (fst (try_body fuel w d m)).
Proof.
  unfold try_body.
  apply no_teardown_andthen; [apply no_teardown_call; reflexivity|].
  intros m1 H1.
  apply no_teardown_andthen;
    [eapply no_teardown_trans; [exact H1|apply no_teardown_call; reflexivity]|].
  intros m2 H2.
  assert (H3 : no_teardown m (print_noend "Scanning" m2)).
  { eapply no_teardown_trans; [exact H2|apply no_teardown_emit; reflexivity]. }
  apply no_teardown_andthen;
    [eapply no_teardown_trans; [exact H3|apply no_teardown_call; reflexivity]|].
  intros m4 H4.
  apply no_teardown_andthen;
    [eapply no_teardown_trans; [exact H4|apply no_teardown_wait_loop]|].
  intros m5 H5. simpl.
  eapply no_teardown_trans; [exact H5|apply no_teardown_emit; reflexivity].
Qed.

Lemma no_teardown_except (m : machine) (r : machine * flow unit) :
  no_teardown m (fst r) -> no_teardown m (fst (except_Exception r)).
Proof.
  intros H. destruct r as [m1 [| |e|]]; simpl in *; try exact H.
  destruct (is_Exception e); simpl; [|exact H].
  eapply no_teardown_trans; [exact H|].
  apply no_teardown_trans
    with (m2 := print (nl ++ "Scan error: " ++ exn_str e) m1);
    apply no_teardown_emit; reflexivity.
Qed.

Lemma except_Stalls (r : machine * flow unit) :
  snd (except_Exception r) = Stalls <-> snd r = Stalls.
Proof.
  destruct r as [m1 [| |e|]]; simpl; try tauto.
  destruct (is_Exception e); simpl; split; discriminate.
Qed.

(** What the [finally] block adds to the log. *)
Lemma finally_log (w : world) (r : machine * flow unit) :
  snd r <> Stalls ->
  log (fst (finally w r))
  = log (fst r) ++ teardown_actions (led (self (fst r)))
  /\ self (fst (finally w r)) = self (fst r)
  /\ snd (finally w r) = snd r.
Proof.
  intros H. destruct r as [m st]. simpl in H.
  unfold teardown_actions.
  destruct st; try (exfalso; apply H; reflexivity);
    simpl; destruct (led (self m)); destruct (gap_stop_raises w);
    simpl; rewrite <- ?app_assoc; auto.
Qed.

Lemma finally_Stalls (w : world) (r : machine * flow unit) :
  snd (finally w r) = Stalls <-> snd r = Stalls.
Proof.
  destruct r as [m [| | |]]; simpl; split; intros H; try discriminate;
    reflexivity.
Qed.

Lemma finally_stop_succeeds (w : world) (r : machine * flow unit) :
  finally (stop_succeeds w) r = finally w r.
Proof.
  destruct r as [m st]. unfold finally.
  destruct st; try reflexivity; simpl; destruct (gap_stop_raises w); reflexivity.
Qed.

Lemma wait_loop_stop_succeeds (fuel : nat) (w : world) (d start : Z) :
  forall (k : nat) (m : machine),
    wait_loop fuel (stop_succeeds w) d start k m = wait_loop fuel w d start k m.
Proof.
  induction fuel as [|fuel IH]; intros k m; [reflexivity|].
  simpl. destruct (negb _); [|reflexivity].
  destruct (_ >? _)%Z; [reflexivity|].
  destruct (sleep w k) as [events [e|]]; [reflexivity|]. apply IH.
Qed.

Lemma try_body_stop_succeeds (fuel : nat) (w : world) (d : Z) (m : machine) :
  try_body fuel (stop_succeeds w) d m = try_body fuel w d m.
Proof.
  unfold try_body. simpl.
  destruct (call (BleActive true) (active_raises w) m) as [m1 [| | |]];
    simpl; try reflexivity.
  destruct (call BleIrq (irq_raises w) m1) as [m2 [| | |]];
    simpl; try reflexivity.
  destruct (call _ (gap_scan_raises w) _) as [m3 [| | |]];
    simpl; try reflexivity.
  rewrite wait_loop_stop_succeeds. reflexivity.
Qed.

Lemma entered_facts (self0 : scanner) (d : Z) :
  filter teardown (log (entered self0 d)) = []
  /\ led (self (entered self0 d)) = led self0
  /\ devices_found (self (entered self0 d)) = []
  /\ scan_complete (self (entered self0 d)) = false.
Proof.
  unfold entered. simpl. destruct (led self0); simpl; auto.
Qed.

Lemma scan_devices_unfold (fuel : nat) (w : world) (self0 : scanner) (d : Z) :
  scan_devices fuel w self0 d
  = match finally w (except_Exception (try_body fuel w d (entered self0 d))) with
    | (m, Falls) => (m, Return (devices_found (self m)))
    | (m, Returns _) => (m, Return (devices_found (self m)))
    | (m, Throws e) => (m, Raise e)
    | (m, Stalls) => (m, Diverge)
    end.
Proof. reflexivity. Qed.

End SessionFacts.

Module SessionResults.
Import SessionFacts.

Lemma filter_teardown_nil (l : list action) :
  filter teardown l = [] ->
  filter is_stop l = [] /\ filter is_led_off l = [].
Proof.
  induction l as [|a l IH]; [auto|].
  simpl. unfold teardown at 1.
  destruct (is_stop a); simpl; [discriminate|].
  destruct (is_led_off a); simpl; [discriminate|]. exact IH.
Qed.

(** On every run that ends, the log is a teardown-free part followed by the
    teardown. *)
Lemma scan_devices_log (fuel : nat) (w : world) (self0 : scanner) (d : Z) :
  snd (scan_devices fuel w self0 d) <> Diverge ->
  exists before,
    log (fst (scan_devices fuel w self0 d))
    = before ++ teardown_actions (led self0)
    /\ filter teardown before = [].
Proof.
  rewrite scan_devices_unfold.
  set (r := except_Exception (try_body fuel w d (entered self0 d))).
  intros Hend.
  assert (Hr : snd r <> Stalls).
  { intros Hs. apply (finally_Stalls w) in Hs.
    destruct (finally w r) as [m st]. simpl in Hs. subst st.
    apply Hend. reflexivity. }
  destruct (finally_log w r Hr) as [Hlog [_ _]].
  assert (Hno : no_teardown (entered self0 d) (fst r)).
  { apply no_teardown_except. apply no_teardown_try_body. }
  destruct Hno as [Hno Hled].
  destruct (entered_facts self0 d) as [He [Hl _]].
  exists (log (fst r)). split.
  - rewrite <- Hl, <- Hled, <- Hlog.
    destruct (finally w r) as [m [| | |]]; reflexivity.
  - rewrite Hno. exact He.
Qed.

Lemma scan_devices_stop_succeeds (fuel : nat) (w : world) (self0 : scanner)
  (d : Z) :
  scan_devices fuel (stop_succeeds w) self0 d = scan_devices fuel w self0 d.
Proof.
  rewrite !scan_devices_unfold.
  rewrite try_body_stop_succeeds, finally_stop_succeeds. reflexivity.
Qed.

Lemma count_teardown_actions (with_led : bool) (before : list action) :
  filter teardown before = [] ->
  count is_stop (before ++ teardown_actions with_led) = 1
  /\ count is_led_off (before ++ teardown_actions with_led)
     = if with_led then 1 else 0.
Proof.
  intros H. destruct (filter_teardown_nil _ H) as [Hs Hl].
  unfold count. rewrite !filter_app, Hs, Hl.
  destruct with_led; split; reflexivity.
Qed.

Lemma try_body_start_error (fuel : nat) (w : world) (d : Z) (m : machine)
  (e : exn) :
  start_error w = Some e ->
  snd (try_body fuel w d m) = Throws e
  /\ self (fst (try_body fuel w d m)) = self m.
Proof.
  unfold start_error, try_body. intros H.
  destruct (active_raises w) as [e1|].
  { injection H as <-. simpl. auto. }
  destruct (irq_raises w) as [e2|].
  { injection H as <-. simpl. auto. }
  rewrite H. simpl. auto.
Qed.


Lemma irq_not_done (self : scanner) (event : Z) (data : report) :
  event <> 6%Z ->
  scan_complete (fst (_irq self event data)) = scan_complete self.
Proof.
  intros H. unfold _irq. destruct (event =? 5)%Z.
  - destruct (negb _); reflexivity.
  - replace (event =? 6)%Z with false; [reflexivity|].
    symmetry. apply Z.eqb_neq. exact H.
Qed.

Lemma deliver_not_done (events : list (Z * report)) :
  forall self : scanner,
    (forall ev, In ev events -> fst ev <> 6%Z) ->
    scan_complete (fst (deliver self events)) = scan_complete self.
Proof.
  induction events as [|[event data] rest IH]; intros self H; [reflexivity|].
  rewrite deliver_cons. rewrite IH.
  - apply irq_not_done. apply (H (event, data)). left. reflexivity.
  - intros ev Hev. apply H. right. exact Hev.
Qed.

Lemma count_Stdout (p : action -> bool) (out : list string) :
  p (Stdout EmptyString) = false ->
  (forall s, p (Stdout s) = p (Stdout EmptyString)) ->
  filter p (map Stdout out) = [].
Proof.
  intros H0 H. induction out as [|s out IH]; [reflexivity|].
  simpl. rewrite H, H0. exact IH.
Qed.


End SessionResults.

Import SessionFacts SessionResults.

(** C3, as amended.  When activating the radio, registering the handler or
    issuing the scan command raises [e], the teardown runs (the last
    actions of the session are LED off, where there is an LED, and the stop
    command).  An [e] that is an [Exception] is printed and not raised
    again: [scan_devices] returns normally, with the empty registry.  Only
    an [e] outside [Exception] (a keyboard interrupt, a cancellation)
    reaches the caller. *)
Theorem start_error_is_printed_not_raised (fuel : nat) (w : world)
  (self0 : scanner) (d : Z) (e : exn) :
  start_error w = Some e ->
  let r := scan_devices fuel w self0 d in
  (is_Exception e = true ->
     snd r = Return []
     /\ In (Stdout ((nl ++ "Scan error: " ++ exn_str e) ++ nl)) (log (fst r)))
  /\ (is_Exception e = false -> snd r = Raise e)
  /\ exists before,
       log (fst r) = before ++ teardown_actions (led self0)
       /\ filter teardown before = [].
Proof.
  intros He r.
  assert (Hr : snd r = if is_Exception e then Return [] else Raise e).
  { unfold r. rewrite scan_devices_unfold.
    destruct (@try_body_start_error fuel w d (entered self0 d) e He) as [Hs Hself].
    destruct (try_body fuel w d (entered self0 d)) as [m1 st].
    simpl in Hs, Hself. subst st. simpl.
    destruct (entered_facts self0 d) as [_ [_ [Hreg _]]].
    destruct (is_Exception e); simpl;
      destruct (led (self m1)); destruct (gap_stop_raises w); simpl;
      rewrite ?Hself, ?Hreg; reflexivity. }
  split; [|split].
  - intros Hexc. rewrite Hexc in Hr. split; [exact Hr|].
    unfold r. rewrite scan_devices_unfold.
    destruct (@try_body_start_error fuel w d (entered self0 d) e He) as [Hs _].
    destruct (try_body fuel w d (entered self0 d)) as [m1 st].
    simpl in Hs. subst st. unfold except_Exception. rewrite Hexc.
    unfold finally, call. cbn [fst snd log emit print self].
    destruct (led (self m1)); destruct (gap_stop_raises w);
      cbn [fst snd log emit print self]; rewrite !in_app_iff; cbn [In]; tauto.
  - intros Hexc. rewrite Hexc in Hr. exact Hr.
  - apply scan_devices_log. fold r. rewrite Hr.
    destruct (is_Exception e); discriminate.
Qed.

Lemma start_error_is_printed_not_raised_witness :
  snd (scan_devices 0 dead_radio fresh 15) = Return [].
Proof.
  apply (@start_error_is_printed_not_raised 0 dead_radio fresh 15 (OSError 19));
    reflexivity.
Defined.

(** C3, as stated, fails: when activation raises [OSError], the caller of
    [scan_devices] gets no error but a normal return with an empty
    registry. *)
Lemma activation_error_is_swallowed :
  active_raises dead_radio = Some (OSError 19)
  /\ snd (scan_devices 0 dead_radio fresh 15) = Return []
  /\ snd (scan_devices 0 dead_radio fresh 15) <> Raise (OSError 19).
Proof.
  split; [reflexivity|]. split; [reflexivity|]. vm_compute. discriminate.
Qed.



(** C9.  On every run of [scan_devices] that ends (by completion, by
    timeout, or with an error from activation, from the scan command or
    from the wait) the stop command is issued exactly once and the LED,
    where there is one, is switched off exactly once, as the last actions
    of the session; and the run is the same whether or not the stop command
    fails, so an error of the stop command never reaches the caller. *)
Theorem teardown_runs_once (fuel : nat) (w : world) (self0 : scanner) (d : Z) :
  snd (scan_devices fuel w self0 d) <> Diverge ->
  let r := scan_devices fuel w self0 d in
  count is_stop (log (fst r)) = 1
  /\ count is_led_off (log (fst r)) = (if led self0 then 1 else 0)
  /\ (exists before,
        log (fst r) = before ++ teardown_actions (led self0)
        /\ filter teardown before = [])
  /\ scan_devices fuel (stop_succeeds w) self0 d = r.
Proof.
  intros Hend r.
  destruct (scan_devices_log fuel w self0 d Hend) as [before [Hlog Hb]].
  fold r in Hlog.
  destruct (count_teardown_actions (led self0) before Hb) as [Hs Hl].
  rewrite Hlog.
  split; [exact Hs|]. split; [exact Hl|].
  split; [exists before; auto|].
  apply scan_devices_stop_succeeds.
Qed.

Lemma teardown_runs_once_witness :
  count is_stop (log (fst (scan_devices 40 silent_radio fresh 1))) = 1.
Proof.
  apply (@teardown_runs_once 40 silent_radio fresh 1).
  vm_compute. discriminate.
Defined.

(* ===================================================================== *)
(** * Further properties of the decoders *)
(* ===================================================================== *)

Module DecoderMore.

Lemma encode_app (rs1 rs2 : list ad_record) :
  encode (rs1 ++ rs2) = encode rs1 ++ encode rs2.
Proof. unfold encode. apply flat_map_app. Qed.

Lemma first_value_uncut (kind : byte -> bool) (rs : list ad_record)
  (e : ending) :
  ~ cut_short e -> first_value kind rs e = first_value kind rs Clean.
Proof.
  intros He. induction rs as [|r rs IH]; simpl.
  - destruct e; simpl in He; tauto.
  - rewrite IH. reflexivity.
Qed.

Lemma first_value_found (kind : byte -> bool) (rs1 : list ad_record)
  (r : ad_record) (rs2 : list ad_record) (e : ending) :
  none_of kind rs1 = true -> kind (ad_type r) = true ->
  first_value kind (rs1 ++ r :: rs2) e = Some (ad_value r).
Proof.
  intros Hnone Hr. induction rs1 as [|r1 rs1 IH]; simpl.
  - rewrite Hr. reflexivity.
  - simpl in Hnone. apply andb_true_iff in Hnone. destruct Hnone as [H1 Hnone].
    apply negb_true_iff in H1. rewrite H1. apply IH. exact Hnone.
Qed.

(** A buffer that starts with complete records and goes on with anything at
    all. *)
Lemma any_rest_splits (rs1 : list ad_record) (r : ad_record) (rest : bytes) :
  Forall complete rs1 -> complete r ->
  exists rs2 e,
    encode rs1 ++ encode_record r ++ rest
    = encode (rs1 ++ r :: rs2) ++ ending_bytes e
    /\ Forall complete (rs1 ++ r :: rs2) /\ proper e.
Proof.
  intros H1 Hr.
  destruct (every_buffer_splits rest) as [rs2 [e [Hrest [H2 He]]]].
  exists rs2, e. split; [|split].
  - rewrite encode_app. rewrite Hrest.
    change (encode (r :: rs2)) with (encode_record r ++ encode rs2).
    rewrite <- !app_assoc. reflexivity.
  - apply Forall_app. split; [exact H1|]. constructor; assumption.
  - exact He.
Qed.

Lemma first_value_bound (kind : byte -> bool) (rs : list ad_record) :
  forall (e : ending) (v : bytes),
    Forall complete rs -> proper e ->
    first_value kind rs e = Some v -> length v <= 254.
Proof.
  induction rs as [|r rs IH]; intros e v Hrs He H.
  - simpl in H. destruct e as [| | |l t w]; try discriminate.
    destruct (kind t); [|discriminate]. injection H as <-.
    simpl in He. pose proof (Byte.to_nat_bounded l). lia.
  - inversion Hrs as [|? ? Hr Hrs']; subst. simpl in H.
    destruct (kind (ad_type r)).
    + injection H as <-. unfold complete in Hr.
      pose proof (Byte.to_nat_bounded (ad_len r)). lia.
    + eapply IH; eassumption.
Qed.

Lemma byte_of_to_nat (n : nat) : n <= 255 -> Byte.to_nat (byte_of n) = n.
Proof.
  intros Hn. unfold byte_of.
  destruct (Byte.of_nat n) as [x|] eqn:Hx.
  - apply Byte.to_of_nat. exact Hx.
  - apply Byte.of_nat_None_iff in Hx. lia.
Qed.

Lemma field_complete (t : byte) (v : bytes) :
  length v <= 254 -> complete (field t v).
Proof.
  intros Hv. unfold complete, field. simpl. apply byte_of_to_nat. lia.
Qed.

Lemma slice_inside (b : bytes) (lo hi : nat) : inside (slice b lo hi) b.
Proof.
  exists (firstn lo b), (skipn (hi - lo) (skipn lo b)). unfold slice.
  rewrite firstn_skipn. rewrite firstn_skipn. reflexivity.
Qed.

Lemma slice_length (b : bytes) (lo n : nat) :
  lo + n <= length b -> length (slice b lo (lo + n)) = n.
Proof.
  intros H. unfold slice. rewrite length_firstn, length_skipn. lia.
Qed.

Lemma for_uuid16_from_buffer (adv_data : bytes) (js : list nat) :
  forall services,
    Forall (uuid_of_buffer adv_data) services ->
    Forall (uuid_of_buffer adv_data) (fst (for_uuid16 adv_data js services)).
Proof.
  induction js as [|j js IH]; intros services H; [exact H|].
  simpl. destruct (j + 1 <? length adv_data) eqn:Hj; [|apply IH; exact H].
  apply Nat.ltb_lt in Hj.
  assert (Hlen : length (slice adv_data j (j + 2)) = 2)
    by (apply slice_length; lia).
  pose proof (slice_inside adv_data j (j + 2)) as Hin.
  destruct (slice adv_data j (j + 2)) as [|lo [|hi [|? ?]]];
    try discriminate Hlen.
  simpl unpack_H. cbv iota beta.
  apply IH. apply Forall_app. split; [exact H|].
  constructor; [|constructor].
  exists [lo; hi]. split; [exact Hin|]. left. split; [reflexivity|].
  apply HexFacts.uuid16_str_text.
Qed.

Lemma for_uuid128_from_buffer (adv_data : bytes) (js : list nat) :
  forall services,
    Forall (uuid_of_buffer adv_data) services ->
    Forall (uuid_of_buffer adv_data) (for_uuid128 adv_data js services).
Proof.
  induction js as [|j js IH]; intros services H; [exact H|].
  simpl. destruct (j + 15 <? length adv_data) eqn:Hj; [|apply IH; exact H].
  apply Nat.ltb_lt in Hj.
  assert (Hlen : length (slice adv_data j (j + 16)) = 16)
    by (apply slice_length; lia).
  apply IH. apply Forall_app. split; [exact H|].
  constructor; [|constructor].
  exists (slice adv_data j (j + 16)). split; [apply slice_inside|].
  right. split; [exact Hlen|]. apply HexFacts.uuid128_str_text. exact Hlen.
Qed.

Lemma services_loop_from_buffer (fuel : nat) (adv_data : bytes) :
  forall (i : nat) (services : list string),
    Forall (uuid_of_buffer adv_data) services ->
    Forall (uuid_of_buffer adv_data)
      (fst (services_loop fuel adv_data i services)).
Proof.
  induction fuel as [|fuel IH]; intros i services H; [exact H|].
  simpl. destruct (i <? length adv_data); [|exact H].
  destruct (getitem adv_data i) as [n|]; [|exact H].
  destruct (n =? 0); [exact H|].
  destruct (getitem adv_data (i + 1)) as [t|]; [|exact H].
  destruct ((t =? 2) || (t =? 3)).
  { pose proof (@for_uuid16_from_buffer adv_data
                  (range (i + 2) (i + 1 + n) 2) services H) as H16.
    destruct (for_uuid16 adv_data (range (i + 2) (i + 1 + n) 2) services)
      as [services' [u|e]]; simpl in H16; [apply IH; exact H16|exact H16]. }
  destruct ((t =? 6) || (t =? 7)).
  { apply IH. apply for_uuid128_from_buffer. exact H. }
  apply IH. exact H.
Qed.

Lemma ascii_is_utf8 (v : bytes) :
  forallb (in_range 0 127) v = true -> utf8_valid v = true.
Proof.
  induction v as [|x v IH]; [reflexivity|].
  simpl. intros H. apply andb_true_iff in H. destruct H as [Hx Hv].
  cbv zeta. unfold in_range in Hx |- *. simpl in Hx |- *.
  rewrite Hx. apply IH. exact Hv.
Qed.

End DecoderMore.

Import DecoderMore.

(** X1.  A zero length byte ends the scan of the buffer: after complete
    records (UUID lists holding whole UUIDs), whatever follows a zero
    length byte changes nothing in what the three decoders return. *)
Theorem zero_length_ends_the_scan (rs : list ad_record) (rest : bytes) :
  Forall complete rs -> Forall aligned rs ->
  _decode_name (encode rs ++ x00 :: rest) = _decode_name (encode rs)
  /\ _decode_services (encode rs ++ x00 :: rest) = _decode_services (encode rs)
  /\ _decode_manufacturer (encode rs ++ x00 :: rest)
     = _decode_manufacturer (encode rs).
Proof.
  intros Hrs Hal.
  pose proof (@decode_name_split rs (Terminated rest) Hrs I) as Hn.
  pose proof (@decode_services_split rs (Terminated rest) Hrs Hal I) as Hs.
  pose proof (@decode_manufacturer_split rs (Terminated rest) Hrs I) as Hm.
  pose proof (@decode_name_split rs Clean Hrs I) as Hn0.
  pose proof (@decode_services_split rs Clean Hrs Hal I) as Hs0.
  pose proof (@decode_manufacturer_split rs Clean Hrs I) as Hm0.
  simpl ending_bytes in *. rewrite app_nil_r in Hn0, Hs0, Hm0.
  rewrite Hn, Hs, Hm, Hn0, Hs0, Hm0.
  unfold name_of, manufacturer_of, services_of.
  rewrite !(@first_value_uncut _ rs (Terminated rest)) by (simpl; tauto).
  auto.
Qed.

Lemma zero_length_ends_the_scan_witness :
  _decode_services (encode two_lists ++ x00 :: [x03; x03; x0a; x18])
  = _decode_services (encode two_lists).
Proof.
  apply (@zero_length_ends_the_scan two_lists [x03; x03; x0a; x18]).
  - repeat constructor.
  - repeat constructor; simpl; intros; try discriminate; reflexivity.
Defined.

(** X2.  The first record of the kind decides, and nothing after it is
    looked at: when no earlier record is a name, the name is the text of
    the first name record (shortened or complete alike), [None] when its
    bytes are not UTF-8, whatever bytes follow the record; and likewise the
    manufacturer data is the value of the first record of type 0xFF. *)
Theorem first_match_wins (rs1 : list ad_record) (r : ad_record)
  (rest : bytes) :
  Forall complete rs1 -> complete r ->
  let adv_data := encode rs1 ++ encode_record r ++ rest in
  (name_type (ad_type r) = true -> none_of name_type rs1 = true ->
     _decode_name adv_data = Return (text_of (ad_value r)))
  /\ (manufacturer_type (ad_type r) = true ->
      none_of manufacturer_type rs1 = true ->
      _decode_manufacturer adv_data = Return (Some (ad_value r))).
Proof.
  intros H1 Hr adv_data. subst adv_data.
  destruct (@any_rest_splits rs1 _ rest H1 Hr) as [rs2 [e [Hsplit [Hrs He]]]].
  rewrite Hsplit. split; intros Ht Hnone.
  - rewrite decode_name_split by assumption. unfold name_of.
    rewrite first_value_found by assumption. reflexivity.
  - rewrite decode_manufacturer_split by assumption. unfold manufacturer_of.
    rewrite first_value_found by assumption. reflexivity.
Qed.

Lemma first_match_wins_witness :
  _decode_name
    (encode [flags]
       ++ encode_record {| ad_len := x03; ad_type := x08;
                           ad_value := [xc3; x28] |}
       ++ [x03; x09; "O"; "K"]%byte)
  = Return None.
Proof.
  apply (@first_match_wins [flags]
           {| ad_len := x03; ad_type := x08; ad_value := [xc3; x28] |}
           [x03; x09; "O"; "K"]%byte);
    [repeat constructor | reflexivity | reflexivity | reflexivity].
Defined.

(** X3.  Round trip.  A value of at most 254 bytes, framed as an AD
    structure with its computed length byte and placed after complete
    records of other kinds, is decoded back whatever follows it: as the
    name, for the string of any valid UTF-8 bytes under type 0x08 or 0x09,
    and as the manufacturer data, for any bytes under type 0xFF. *)
Theorem field_round_trip (rs1 : list ad_record) (t : byte) (v rest : bytes) :
  Forall complete rs1 -> length v <= 254 ->
  let adv_data := encode rs1 ++ encode_record (field t v) ++ rest in
  (name_type t = true -> none_of name_type rs1 = true ->
   utf8_valid v = true ->
     _decode_name adv_data = Return (Some (string_of_list_byte v)))
  /\ (manufacturer_type t = true -> none_of manufacturer_type rs1 = true ->
      _decode_manufacturer adv_data = Return (Some v)).
Proof.
  intros H1 Hv adv_data. subst adv_data.
  pose proof (@field_complete t v Hv) as Hr.
  destruct (@any_rest_splits rs1 _ rest H1 Hr) as [rs2 [e [Hsplit [Hrs He]]]].
  rewrite Hsplit. split.
  - intros Ht Hnone Hvalid.
    rewrite decode_name_split by assumption. unfold name_of.
    rewrite first_value_found by assumption. simpl.
    unfold text_of, decode_utf8. rewrite Hvalid. reflexivity.
  - intros Ht Hnone.
    rewrite decode_manufacturer_split by assumption. unfold manufacturer_of.
    rewrite first_value_found by assumption. reflexivity.
Qed.

Lemma field_round_trip_witness :
  _decode_name
    (encode [flags]
       ++ encode_record (field x09 (list_byte_of_string "Thermo 1"))
       ++ [x05; xff; x4c])
  = Return (Some "Thermo 1"%string).
Proof.
  apply (@field_round_trip [flags] x09 (list_byte_of_string "Thermo 1")
           [x05; xff; x4c]);
    [repeat constructor | simpl; lia | reflexivity | reflexivity
    | apply ascii_is_utf8; reflexivity].
Defined.

(** X4.  On every buffer, well-formed or not, each service the decoder
    returns renders bytes of the buffer: either two consecutive bytes
    [lo; hi], as "0x" and the upper-case digits of [hi] then [lo], or
    sixteen consecutive bytes, reversed and grouped 8-4-4-4-12. *)
Theorem services_come_from_the_buffer (adv_data : bytes) :
  exists s,
    _decode_services adv_data = Return s
    /\ Forall (uuid_of_buffer adv_data) s.
Proof.
  destruct (decode_services_returns adv_data) as [s Hs].
  exists s. split; [exact Hs|].
  pose proof (@services_loop_from_buffer (S (length adv_data)) adv_data 0 []
                (Forall_nil _)) as H.
  unfold _decode_services in Hs.
  destruct (services_loop (S (length adv_data)) adv_data 0 []) as [s' st].
  simpl in H. destruct st; congruence.
Qed.

(** X5.  On every buffer, a decoded name is the text of at most 254
    consecutive bytes of the buffer, and decoded manufacturer data is at
    most 254 consecutive bytes of the buffer. *)
Theorem decoded_fields_are_short_runs (adv_data : bytes) :
  (exists n,
     _decode_name adv_data = Return n
     /\ forall s, n = Some s ->
          exists v, inside v adv_data /\ length v <= 254
                    /\ decode_utf8 v = Ok s)
  /\ (exists m,
        _decode_manufacturer adv_data = Return m
        /\ forall v, m = Some v -> inside v adv_data /\ length v <= 254).
Proof.
  destruct (every_buffer_splits adv_data) as [rs [e [Hsplit [Hrs He]]]].
  split.
  - exists (name_of rs e). split.
    + rewrite Hsplit. apply decode_name_split; assumption.
    + intros s Hs. unfold name_of in Hs.
      destruct (first_value name_type rs e) as [v|] eqn:Hv; [|discriminate].
      exists v. split; [|split].
      * rewrite Hsplit. eapply first_value_inside. exact Hv.
      * eapply first_value_bound; eassumption.
      * unfold text_of in Hs. destruct (decode_utf8 v); congruence.
  - exists (manufacturer_of rs e). split.
    + rewrite Hsplit. apply decode_manufacturer_split; assumption.
    + intros v Hv. unfold manufacturer_of in Hv. split.
      * rewrite Hsplit. eapply first_value_inside. exact Hv.
      * eapply first_value_bound; eassumption.
Qed.

(* ===================================================================== *)
(** * Further properties of the registry *)
(* ===================================================================== *)

Module RegistryMore.

Lemma HH_injective_all :
  forallb (fun x =>
    forallb (fun y => implb (String.eqb (HH x) (HH y)) (Byte.eqb x y))
      every_byte) every_byte = true.
Proof. vm_compute. reflexivity. Qed.

Lemma HH_injective (x y : byte) : HH x = HH y -> x = y.
Proof.
  intros H. pose proof HH_injective_all as Hall.
  rewrite forallb_forall in Hall.
  specialize (Hall x (HexFacts.every_byte_In x)).
  rewrite forallb_forall in Hall.
  specialize (Hall y (HexFacts.every_byte_In y)).
  rewrite H, String.eqb_refl in Hall. simpl in Hall.
  apply Byte.byte_dec_bl. exact Hall.
Qed.

Lemma mac_of_one (x : byte) : mac_of [x] = HH x.
Proof. unfold mac_of. simpl. apply HexFacts.format_byte_upper. Qed.

Lemma mac_of_more (x y : byte) (rest : bytes) :
  mac_of (x :: y :: rest) = (HH x ++ ":" ++ mac_of (y :: rest))%string.
Proof.
  unfold mac_of, join. simpl map. rewrite HexFacts.format_byte_upper.
  reflexivity.
Qed.

Lemma mac_of_length_cons (addr : bytes) :
  forall x : byte, String.length (mac_of (x :: addr)) = 3 * length addr + 2.
Proof.
  induction addr as [|y rest IH]; intros x.
  - rewrite mac_of_one. reflexivity.
  - rewrite mac_of_more. unfold HH. simpl String.length.
    rewrite IH. simpl length. lia.
Qed.

Lemma mac_of_length (addr : bytes) :
  String.length (mac_of addr) = 3 * length addr - 1.
Proof.
  destruct addr as [|x addr]; [reflexivity|].
  rewrite mac_of_length_cons. simpl length. lia.
Qed.

Lemma mac_of_injective (a1 : bytes) :
  forall a2 : bytes, mac_of a1 = mac_of a2 -> a1 = a2.
Proof.
  induction a1 as [|x a1 IH]; intros a2 H.
  - destruct a2 as [|x2 [|y2 r2]]; [reflexivity| |].
    + rewrite mac_of_one in H. discriminate H.
    + rewrite mac_of_more in H. discriminate H.
  - destruct a1 as [|y r1].
    + destruct a2 as [|x2 [|y2 r2]].
      * rewrite mac_of_one in H. discriminate H.
      * rewrite !mac_of_one in H. f_equal. apply HH_injective. exact H.
      * rewrite mac_of_one, mac_of_more in H. unfold HH in H.
        simpl in H. discriminate H.
    + destruct a2 as [|x2 [|y2 r2]].
      * rewrite mac_of_more in H. discriminate H.
      * rewrite mac_of_one, mac_of_more in H. unfold HH in H.
        simpl in H. discriminate H.
      * rewrite !mac_of_more in H.
        assert (Hx : HH x = HH x2 /\ mac_of (y :: r1) = mac_of (y2 :: r2)).
        { unfold HH in H |- *. simpl in H. injection H as H1 H2 H3.
          split; [congruence|exact H3]. }
        destruct Hx as [Hx Hrest].
        apply HH_injective in Hx. apply IH in Hrest. congruence.
Qed.

(** ** What a batch of events does *)

Lemma deliver_app (e1 : list (Z * report)) :
  forall (self : scanner) (e2 : list (Z * report)),
    fst (deliver self (e1 ++ e2)) = fst (deliver (fst (deliver self e1)) e2).
Proof.
  induction e1 as [|[event data] e1 IH]; intros self e2; [reflexivity|].
  simpl app. rewrite !deliver_cons. apply IH.
Qed.

Lemma irq_flag (self : scanner) (event : Z) (data : report) :
  scan_complete (fst (_irq self event data))
  = scan_complete self || is_done (event, data).
Proof.
  unfold _irq, is_done. simpl fst.
  destruct (event =? 5)%Z eqn:H5.
  - apply Z.eqb_eq in H5. subst event. simpl.
    destruct (negb _); simpl; rewrite orb_false_r; reflexivity.
  - destruct (event =? 6)%Z; simpl;
      [rewrite orb_true_r|rewrite orb_false_r]; reflexivity.
Qed.

Lemma irq_other (self : scanner) (event : Z) (data : report) :
  is_result (event, data) = false ->
  devices_found (fst (_irq self event data)) = devices_found self.
Proof.
  unfold is_result, _irq. simpl fst. intros H. rewrite H.
  destruct (event =? 6)%Z; reflexivity.
Qed.

(** The registry after a call depends on the registry before, not on the
    completion flag. *)
Lemma irq_registry_only (s1 s2 : scanner) (event : Z) (data : report) :
  devices_found s1 = devices_found s2 ->
  devices_found (fst (_irq s1 event data))
  = devices_found (fst (_irq s2 event data)).
Proof.
  intros H. unfold _irq. rewrite H.
  destruct (event =? 5)%Z.
  - destruct (negb _); simpl; first [reflexivity|exact H].
  - destruct (event =? 6)%Z; simpl; first [reflexivity|exact H].
Qed.

Lemma deliver_registry_only (events : list (Z * report)) :
  forall s1 s2 : scanner,
    devices_found s1 = devices_found s2 ->
    devices_found (fst (deliver s1 events))
    = devices_found (fst (deliver s2 events)).
Proof.
  induction events as [|[event data] rest IH]; intros s1 s2 H; [exact H|].
  rewrite !deliver_cons. apply IH. apply irq_registry_only. exact H.
Qed.

Lemma deliver_flag (events : list (Z * report)) :
  forall self : scanner,
    scan_complete (fst (deliver self events))
    = scan_complete self || existsb is_done events.
Proof.
  induction events as [|[event data] rest IH]; intros self.
  - simpl. rewrite orb_false_r. reflexivity.
  - rewrite deliver_cons, IH, irq_flag. simpl existsb. symmetry.
    apply orb_assoc.
Qed.

Lemma deliver_results_only (events : list (Z * report)) :
  forall self : scanner,
    devices_found (fst (deliver self events))
    = devices_found (fst (deliver self (filter is_result events))).
Proof.
  induction events as [|[event data] rest IH]; intros self; [reflexivity|].
  rewrite deliver_cons, IH. simpl filter.
  destruct (is_result (event, data)) eqn:Hr.
  - rewrite deliver_cons. reflexivity.
  - apply deliver_registry_only. apply irq_other. exact Hr.
Qed.

Lemma contains_keys (mac : string) (d : registry) :
  contains mac d = existsb (String.eqb mac) (map fst d).
Proof.
  unfold contains. induction d as [|[k v] d IH]; [reflexivity|].
  simpl. destruct (String.eqb mac k); [reflexivity|exact IH].
Qed.

Lemma irq_keys (self : scanner) (data : report) :
  map fst (devices_found (fst (_irq self 5 data)))
  = first_seen (map fst (devices_found self)) [mac_of (r_addr data)].
Proof.
  unfold _irq, first_seen. simpl.
  rewrite <- contains_keys.
  destruct (contains (mac_of (r_addr data)) (devices_found self)) eqn:Hc;
    simpl; [reflexivity|].
  apply setitem_new_keys. apply contains_false. exact Hc.
Qed.

Lemma first_seen_cons (seen : list string) (mac : string)
  (macs : list string) :
  first_seen seen (mac :: macs) = first_seen (first_seen seen [mac]) macs.
Proof. reflexivity. Qed.

Lemma irq_stars (self : scanner) (event : Z) (data : report) :
  length (filter is_star (snd (_irq self event data)))
  + length (devices_found self)
  = length (devices_found (fst (_irq self event data))).
Proof.
  unfold _irq.
  destruct (event =? 5)%Z.
  - destruct (contains (mac_of (r_addr data)) (devices_found self)) eqn:Hc;
      simpl; [reflexivity|].
    apply contains_false in Hc.
    pose proof (setitem_new_keys (mac_of (r_addr data))
      {| name := or_else (value_of (_decode_name (r_adv_data data)) None)
                   "Unknown";
         rssi := r_rssi data;
         addr_type := if (r_addr_type data =? 0)%Z then "Public"%string
                      else "Random"%string;
         connectable := (r_adv_type data =? 0)%Z || (r_adv_type data =? 1)%Z;
         services := value_of (_decode_services (r_adv_data data)) [];
         manufacturer_data :=
           value_of (_decode_manufacturer (r_adv_data data)) None;
         adv_type := r_adv_type data |} (devices_found self) Hc) as Hk.
    apply (f_equal (@length string)) in Hk.
    repeat rewrite length_map in Hk. rewrite length_app in Hk.
    repeat rewrite length_map in Hk. simpl in Hk.
    destruct (r_rssi data >? -60)%Z; simpl; lia.
  - destruct (event =? 6)%Z; reflexivity.
Qed.

Lemma deliver_snd_cons (self : scanner) (event : Z) (data : report)
  (rest : list (Z * report)) :
  snd (deliver self ((event, data) :: rest))
  = snd (_irq self event data) ++ snd (deliver (fst (_irq self event data)) rest).
Proof.
  simpl. destruct (_irq self event data) as [self1 out1]. simpl.
  destruct (deliver self1 rest) as [self2 out2]. reflexivity.
Qed.

End RegistryMore.

Import RegistryMore.

(** X6.  Different addresses have different keys, so no device is taken
    for another; and the key of an address of [n] bytes has [3 n - 1]
    characters (17 for a Bluetooth address). *)
Theorem different_addresses_have_different_keys (a1 a2 : bytes) :
  a1 <> a2 ->
  mac_of a1 <> mac_of a2
  /\ String.length (mac_of a1) = 3 * length a1 - 1.
Proof.
  intros Hne. split; [|apply mac_of_length].
  intros H. apply Hne. apply mac_of_injective. exact H.
Qed.

Lemma different_addresses_have_different_keys_witness :
  mac_of address <> mac_of [xaa; xbb; xcc; x01; x02; x04]
  /\ String.length (mac_of address) = 17.
Proof.
  apply (@different_addresses_have_different_keys
           address [xaa; xbb; xcc; x01; x02; x04]).
  discriminate.
Defined.

(** X7.  A batch of events sets the completion flag exactly when it holds
    a scan-done event (event 6) or the flag was set before, and the
    registry it leaves is the one its scan results (event 5) alone would
    leave: no other event touches the registry. *)
Theorem batch_flag_and_registry (self : scanner)
  (events : list (Z * report)) :
  scan_complete (fst (deliver self events))
  = scan_complete self || existsb is_done events
  /\ devices_found (fst (deliver self events))
     = devices_found (fst (deliver self (filter is_result events))).
Proof.
  split; [apply deliver_flag|apply deliver_results_only].
Qed.

(** X8.  The keys of the registry after a batch of events are the keys
    before followed by the addresses of the scan results that were not yet
    known, each once, in the order of their first report; and the handler
    prints one "*" for each device it adds. *)
Theorem batch_adds_first_reports (self : scanner)
  (events : list (Z * report)) :
  map fst (devices_found (fst (deliver self events)))
  = first_seen (map fst (devices_found self))
      (map (fun ev => mac_of (r_addr (snd ev))) (filter is_result events))
  /\ length (filter is_star (snd (deliver self events)))
     + length (devices_found self)
     = length (devices_found (fst (deliver self events))).
Proof.
  revert self. induction events as [|[event data] rest IH]; intros self.
  - split; reflexivity.
  - rewrite deliver_cons, deliver_snd_cons.
    destruct (IH (fst (_irq self event data))) as [Hkeys Hstars].
    split.
    + rewrite Hkeys. simpl filter.
      destruct (is_result (event, data)) eqn:Hr.
      * unfold is_result in Hr. simpl in Hr. apply Z.eqb_eq in Hr. subst event.
        simpl map. rewrite first_seen_cons, <- irq_keys. reflexivity.
      * rewrite irq_other by exact Hr. reflexivity.
    + rewrite filter_app, length_app.
      pose proof (irq_stars self event data). lia.
Qed.

(* ===================================================================== *)
(** * Further properties of the reports *)
(* ===================================================================== *)

Module ReportMore.

Lemma filter_none {A : Type} (p : A -> bool) (l : list A) :
  Forall (fun a => p a = false) l -> filter p l = [].
Proof.
  induction 1 as [|a l Ha _ IH]; [reflexivity|].
  simpl. rewrite Ha. exact IH.
Qed.

Lemma filter_all {A : Type} (p : A -> bool) (l : list A) :
  Forall (fun a => p a = true) l -> filter p l = l.
Proof.
  induction 1 as [|a l Ha _ IH]; [reflexivity|].
  simpl. rewrite Ha, IH. reflexivity.
Qed.

(** A list in falling order of rssi is its strong part followed by its
    weak part. *)
Lemma falling_splits (l : registry) :
  StronglySorted (fun a c => (rssi (snd c) <= rssi (snd a))%Z) l ->
  l = filter strong l ++ filter (fun e => negb (strong e)) l.
Proof.
  induction 1 as [|x l Hl IH Hx]; [reflexivity|].
  simpl. destruct (strong x) eqn:Hs; simpl.
  - f_equal. exact IH.
  - assert (Hweak : Forall (fun a => strong a = false) l).
    { rewrite Forall_forall in *. intros a Ha. specialize (Hx a Ha).
      cbv beta in Hx. unfold strong in Hs |- *. rewrite Z.gtb_ltb in Hs |- *.
      apply Z.ltb_ge in Hs. apply Z.ltb_ge. lia. }
    rewrite (filter_none strong Hweak). simpl. f_equal.
    symmetry. apply filter_all.
    rewrite Forall_forall in *. intros a Ha. rewrite (Hweak a Ha). reflexivity.
Qed.

Lemma append_assoc (a c d : string) :
  ((a ++ c) ++ d = a ++ (c ++ d))%string.
Proof. induction a as [|x a IH]; simpl; [reflexivity|rewrite IH; reflexivity]. Qed.

Lemma device_block_ok (i : nat) (entry : string * device) :
  snd (device_block i entry) = Ok tt.
Proof.
  destruct entry as [mac info]. unfold device_block.
  destruct (manufacturer_data info) as [[|lo [|hi more]]|]; reflexivity.
Qed.

Lemma device_blocks_ok (entries : registry) :
  forall i : nat, snd (device_blocks i entries) = Ok tt.
Proof.
  induction entries as [|entry rest IH]; intros i; [reflexivity|].
  simpl. pose proof (device_block_ok i entry) as H.
  destruct (device_block i entry) as [lines [u|e]]; [|discriminate H].
  specialize (IH (S i)).
  destruct (device_blocks (S i) rest) as [more r]. exact IH.
Qed.

End ReportMore.

Import ReportMore.

(** X9.  The quick summary of a non-empty registry is a header and then
    one line per device, all the strong devices (above -60 dBm, labelled
    "Strong") before all the weak ones (labelled "Weak"). *)
Theorem summary_lists_strong_devices_first (self : scanner) :
  devices_found self <> [] ->
  exists header strong_ones weak_ones,
    print_summary self = header :: map summary_line (strong_ones ++ weak_ones)
    /\ Permutation (devices_found self) (strong_ones ++ weak_ones)
    /\ Forall (fun e => (rssi (snd e) > -60)%Z
                        /\ exists text,
                             summary_line e = (text ++ "dBm (Strong)")%string)
         strong_ones
    /\ Forall (fun e => (rssi (snd e) <= -60)%Z
                        /\ exists text,
                             summary_line e = (text ++ "dBm (Weak)")%string)
         weak_ones.
Proof.
  intros Hne.
  set (ranking := sorted_devices (devices_found self)).
  exists (nl ++ "Quick Summary - "
             ++ str_int (Z.of_nat (length (devices_found self)))
             ++ " devices:")%string,
         (filter strong ranking),
         (filter (fun e => negb (strong e)) ranking).
  assert (Hsplit : ranking
            = filter strong ranking
              ++ filter (fun e => negb (strong e)) ranking).
  { apply falling_splits.
    exact (ReportFacts.sorted_ordered (fun x => rssi (snd x)) true
             (devices_found self)). }
  split; [|split; [|split]].
  - rewrite <- Hsplit. unfold print_summary.
    destruct (devices_found self); [congruence|reflexivity].
  - rewrite <- Hsplit. apply ReportFacts.sorted_perm.
  - apply Forall_forall. intros [mac info] He.
    apply filter_In in He. destruct He as [_ Hs].
    unfold strong in Hs. simpl in Hs. split.
    + rewrite Z.gtb_ltb in Hs. apply Z.ltb_lt in Hs. simpl. lia.
    + unfold summary_line. rewrite Hs.
      exists ("  "
                ++ (if negb (String.eqb (name info) "Unknown") then name info
                    else "Unnamed")
                ++ " (" ++ mac ++ ") - " ++ str_int (rssi info))%string.
      rewrite !append_assoc. reflexivity.
  - apply Forall_forall. intros [mac info] He.
    apply filter_In in He. destruct He as [_ Hs].
    apply negb_true_iff in Hs. unfold strong in Hs. simpl in Hs. split.
    + rewrite Z.gtb_ltb in Hs. apply Z.ltb_ge in Hs. simpl. lia.
    + unfold summary_line. rewrite Hs.
      exists ("  "
                ++ (if negb (String.eqb (name info) "Unknown") then name info
                    else "Unnamed")
                ++ " (" ++ mac ++ ") - " ++ str_int (rssi info))%string.
      rewrite !append_assoc. reflexivity.
Qed.

Lemma summary_lists_strong_devices_first_witness :
  exists header strong_ones weak_ones,
    print_summary {| devices_found := three_devices;
                     scan_complete := true; led := true |}
    = header :: map summary_line (strong_ones ++ weak_ones)
    /\ Permutation three_devices (strong_ones ++ weak_ones).
Proof.
  destruct (@summary_lists_strong_devices_first
              {| devices_found := three_devices;
                 scan_complete := true; led := true |})
    as [header [strong_ones [weak_ones [H1 [H2 _]]]]].
  - discriminate.
  - exists header, strong_ones, weak_ones. split; assumption.
Defined.

(** X10.  [print_results] never raises: the company identifier is only
    unpacked from payloads of two bytes or more.  For a device whose
    manufacturer data starts [lo; hi], the last line of its block names the
    company as "0x" and the four upper-case hexadecimal digits of [hi] then
    [lo]. *)
Theorem detailed_report_names_the_company (self : scanner) :
  snd (print_results self) = Return tt
  /\ forall i mac info lo hi more,
       manufacturer_data info = Some (lo :: hi :: more) ->
       exists lines,
         fst (device_block i (mac, info))
         = lines ++ [("   Manufacturer: Company ID "
                        ++ uuid16_text [lo; hi])%string].
Proof.
  split.
  - unfold print_results. destruct (devices_found self) as [|entry rest] eqn:Hd;
      [reflexivity|].
    pose proof (device_blocks_ok (sorted_devices (entry :: rest)) 1) as H.
    destruct (device_blocks 1 (sorted_devices (entry :: rest))) as [lines r].
    simpl in H. subst r. reflexivity.
  - intros i mac info lo hi more Hm. unfold device_block. rewrite Hm.
    simpl Nat.leb. cbv iota.
    change (slice (lo :: hi :: more) 0 2) with [lo; hi].
    unfold unpack_H.
    eexists. rewrite app_assoc. f_equal. f_equal.
    rewrite <- HexFacts.uuid16_str_text. reflexivity.
Qed.

Example apple_company_id :
  last (fst (device_block 1
               ("AA"%string,
                {| name := "Unknown"; rssi := -70; addr_type := "Random";
                   connectable := false; services := [];
                   manufacturer_data := Some [x4c; x00; x02; x15];
                   adv_type := 3 |}))) EmptyString
  = "   Manufacturer: Company ID 0x004C"%string.
Proof. vm_compute. reflexivity. Qed.

(* ===================================================================== *)
(** * Further properties of the scan session *)
(* ===================================================================== *)

Module SessionMore.

Lemma entered_self (self0 : scanner) (d : Z) :
  self (entered self0 d) = cleared self0.
Proof. unfold entered, cleared. simpl. destruct (led self0); reflexivity. Qed.

Lemma entered_log (self0 : scanner) (d : Z) :
  exists t1 t2,
    log (entered self0 d)
    = [Stdout t1; Stdout t2] ++ (if led self0 then [LedOn] else []).
Proof.
  unfold entered. simpl. destruct (led self0); simpl; eauto.
Qed.

(** What the session logs besides text and sleeps. *)
Section Silent.

Variable p : action -> bool.
Hypothesis p_out : forall s, p (Stdout s) = false.

Lemma silent_out (out : list string) : filter p (map Stdout out) = [].
Proof.
  induction out as [|s out IH]; [reflexivity|]. simpl. rewrite p_out. exact IH.
Qed.

Lemma silent_print (text : string) (m : machine) :
  filter p (log (print text m)) = filter p (log m).
Proof.
  unfold print, emit. simpl. rewrite filter_app. simpl. rewrite p_out.
  apply app_nil_r.
Qed.

Lemma silent_except (r : machine * flow unit) :
  filter p (log (fst (except_Exception r))) = filter p (log (fst r)).
Proof.
  destruct r as [m [| |e|]]; try reflexivity. simpl.
  destruct (is_Exception e); [|reflexivity]. simpl fst.
  rewrite !silent_print. reflexivity.
Qed.

Hypothesis p_sleep : forall ms, p (SleepMs ms) = false.

Lemma silent_suspended (events : list (Z * report)) (m : machine) :
  filter p (log (suspended events (emit (SleepMs 100) m))) = filter p (log m).
Proof.
  unfold suspended.
  destruct (deliver (self (emit (SleepMs 100) m)) events) as [s out].
  simpl. rewrite !filter_app, silent_out. simpl. rewrite p_sleep.
  rewrite !app_nil_r. reflexivity.
Qed.

Lemma silent_wait_loop (fuel : nat) (w : world) (d start : Z) :
  forall (k : nat) (m : machine),
    filter p (log (fst (wait_loop fuel w d start k m))) = filter p (log m).
Proof.
  induction fuel as [|fuel IH]; intros k m; [reflexivity|].
  simpl. destruct (negb (scan_complete (self m))); [|reflexivity].
  destruct (_ >? _)%Z; [apply silent_print|].
  destruct (sleep w k) as [events [e|]].
  - apply silent_suspended.
  - rewrite IH. apply silent_suspended.
Qed.

Lemma silent_try_body (fuel : nat) (w : world) (d : Z) (m : machine) :
  filter p (log (fst (try_body fuel w d m)))
  = filter p (log m) ++ filter p (start_calls w d).
Proof.
  unfold try_body, start_calls, call.
  destruct (active_raises w) as [e|]; simpl andthen.
  { simpl. rewrite filter_app. reflexivity. }
  destruct (irq_raises w) as [e|]; simpl andthen.
  { simpl. rewrite !filter_app. simpl. rewrite <- app_assoc.
    destruct (p (BleActive true)); destruct (p BleIrq); reflexivity. }
  assert (Hcalls : forall m3 : machine,
    log m3 = log m ++ [BleActive true; BleIrq; Stdout "Scanning";
                       GapScan (d * 1000) 30000 30000] ->
    filter p (log m3)
    = filter p (log m)
      ++ filter p [BleActive true; BleIrq; GapScan (d * 1000) 30000 30000]).
  { intros m3 H3. rewrite H3, filter_app. f_equal. simpl. rewrite p_out.
    reflexivity. }
  destruct (gap_scan_raises w) as [e|]; simpl andthen.
  { simpl fst. apply Hcalls. simpl. rewrite <- !app_assoc. reflexivity. }
  set (m3 := emit _ (print_noend _ (emit _ (emit _ m)))).
  pose proof (silent_wait_loop fuel w d (ticks_ms w 0) 0 m3) as Hw.
  destruct (wait_loop fuel w d (ticks_ms w 0) 0 m3) as [m4 [| | |]];
    cbn [andthen fst] in Hw |- *; rewrite ?silent_print, Hw; apply Hcalls;
    unfold m3; simpl; rewrite <- !app_assoc; reflexivity.
Qed.

End Silent.

(** The log of a session: the entry, the start calls, and unless the wait
    never ends, the teardown. *)
Lemma scan_devices_filter (p : action -> bool) (fuel : nat) (w : world)
  (self0 : scanner) (d : Z) :
  (forall s, p (Stdout s) = false) -> (forall ms, p (SleepMs ms) = false) ->
  filter p (log (fst (scan_devices fuel w self0 d)))
  = filter p (if led self0 then [LedOn] else [])
    ++ filter p (start_calls w d)
    ++ match snd (scan_devices fuel w self0 d) with
       | Diverge => []
       | _ => filter p (teardown_actions (led self0))
       end.
Proof.
  intros p_out p_sleep. rewrite scan_devices_unfold.
  set (r := except_Exception (try_body fuel w d (entered self0 d))).
  assert (Hr : filter p (log (fst r))
               = filter p (if led self0 then [LedOn] else [])
                 ++ filter p (start_calls w d)).
  { unfold r. rewrite silent_except by exact p_out.
    rewrite silent_try_body by assumption.
    destruct (entered_log self0 d) as [t1 [t2 Hlog]]. rewrite Hlog.
    rewrite filter_app. simpl. rewrite !p_out. reflexivity. }
  assert (Hled : led (self (fst r)) = led self0).
  { pose proof (@no_teardown_except (entered self0 d) _
                  (no_teardown_try_body fuel w d (entered self0 d)))
      as [_ H].
    fold r in H. rewrite H. rewrite entered_self. reflexivity. }
  destruct (snd r) eqn:Hst.
  - destruct (@finally_log w r) as [Hlog [_ Hsnd]]; [congruence|].
    destruct (finally w r) as [m st]. simpl in Hlog, Hsnd. subst st.
    rewrite Hst. simpl. rewrite Hlog, filter_app, Hr, Hled, <- app_assoc.
    reflexivity.
  - destruct (@finally_log w r) as [Hlog [_ Hsnd]]; [congruence|].
    destruct (finally w r) as [m st]. simpl in Hlog, Hsnd. subst st.
    rewrite Hst. simpl. rewrite Hlog, filter_app, Hr, Hled, <- app_assoc.
    reflexivity.
  - destruct (@finally_log w r) as [Hlog [_ Hsnd]]; [congruence|].
    destruct (finally w r) as [m st]. simpl in Hlog, Hsnd. subst st.
    rewrite Hst. simpl. rewrite Hlog, filter_app, Hr, Hled, <- app_assoc.
    reflexivity.
  - destruct r as [m st]. simpl in Hst. subst st. simpl.
    simpl in Hr. rewrite Hr, app_nil_r. reflexivity.
Qed.

Lemma count_suspended (events : list (Z * report)) (m : machine) :
  count is_sleep (log (suspended events (emit (SleepMs 100) m)))
  = S (count is_sleep (log m)).
Proof.
  unfold suspended.
  destruct (deliver (self (emit (SleepMs 100) m)) events) as [s out].
  unfold count. simpl. rewrite !filter_app. simpl.
  rewrite count_Stdout by reflexivity.
  rewrite !length_app. simpl. lia.
Qed.

(** Once the clock is past the deadline at pass [j + n], the wait loop is
    over after at most [n] more sleeps. *)
Lemma count_print (text : string) (m : machine) :
  count is_sleep (log (print text m)) = count is_sleep (log m).
Proof.
  unfold count, print, emit. simpl. rewrite filter_app. simpl.
  rewrite app_nil_r. reflexivity.
Qed.

Lemma wait_loop_bounded (w : world) (d start : Z) (n : nat) :
  forall (fuel j : nat) (m : machine),
    (ticks_diff (ticks_ms w (S (j + n))) start >? (d + 2) * 1000)%Z = true ->
    n < fuel ->
    snd (wait_loop fuel w d start j m) <> Stalls
    /\ count is_sleep (log (fst (wait_loop fuel w d start j m)))
       <= count is_sleep (log m) + n.
Proof.
  induction n as [|n IH]; intros fuel j m Hlate Hfuel;
    (destruct fuel as [|fuel]; [lia|]); cbn [wait_loop].
  - destruct (negb (scan_complete (self m)));
      [|cbn [fst snd]; split; [discriminate|lia]].
    rewrite Nat.add_0_r in Hlate. rewrite Hlate. cbn [fst snd].
    split; [discriminate|]. rewrite count_print. lia.
  - destruct (negb (scan_complete (self m)));
      [|cbn [fst snd]; split; [discriminate|lia]].
    destruct (ticks_diff (ticks_ms w (S j)) start >? (d + 2) * 1000)%Z.
    { cbn [fst snd]. split; [discriminate|]. rewrite count_print. lia. }
    destruct (sleep w j) as [events [e|]].
    + cbn [fst snd]. split; [discriminate|]. rewrite count_suspended. lia.
    + destruct (IH fuel (S j) (suspended events (emit (SleepMs 100) m)))
        as [H1 H2].
      * replace (S j + n) with (j + S n) by lia. exact Hlate.
      * lia.
      * split; [exact H1|]. rewrite count_suspended in H2. lia.
Qed.

End SessionMore.

Import SessionMore.

(** X11.  The hardware sees, on every run and in this order: the LED
    switched on (where there is one); the radio activated, then the handler
    registered, then the scan command with the duration in milliseconds
    and 30000 for interval and window, up to the first of these calls that
    fails; and, unless the wait never ends, the LED switched off and the
    stop command.  In particular no scan is started on a radio that could
    not be activated. *)
Theorem hardware_transcript (fuel : nat) (w : world) (self0 : scanner)
  (d : Z) :
  let r := scan_devices fuel w self0 d in
  filter (fun a => is_radio a || is_led a) (log (fst r))
  = (if led self0 then [LedOn] else [])
    ++ start_calls w d
    ++ match snd r with
       | Diverge => []
       | _ => teardown_actions (led self0)
       end.
Proof.
  intros r. unfold r.
  rewrite scan_devices_filter by reflexivity.
  assert (H1 : filter (fun a => is_radio a || is_led a)
                 (if led self0 then [LedOn] else [])
               = if led self0 then [LedOn] else [])
    by (destruct (led self0); reflexivity).
  assert (H2 : filter (fun a => is_radio a || is_led a) (start_calls w d)
               = start_calls w d).
  { unfold start_calls. destruct (active_raises w); [reflexivity|].
    destruct (irq_raises w); reflexivity. }
  assert (H3 : filter (fun a => is_radio a || is_led a)
                 (teardown_actions (led self0))
               = teardown_actions (led self0))
    by (destruct (led self0); reflexivity).
  rewrite H1, H2, H3. reflexivity.
Qed.

(** X12.  If the clock is past the deadline at some pass [K] of the wait
    loop, then whatever the radio does, whatever events arrive and whether
    or not the sleeps are interrupted, [scan_devices] ends (with fuel for
    more than [K] passes it does not run out) after at most [K] sleeps. *)
Theorem deadline_bounds_the_wait (fuel : nat) (w : world) (self0 : scanner)
  (d : Z) (K : nat) :
  late w d K = true -> K < fuel ->
  let r := scan_devices fuel w self0 d in
  snd r <> Diverge /\ count is_sleep (log (fst r)) <= K.
Proof.
  intros Hlate Hfuel r.
  assert (Hbody : snd (try_body fuel w d (entered self0 d)) <> Stalls
                  /\ count is_sleep (log (fst (try_body fuel w d
                                                 (entered self0 d)))) <= K).
  { assert (H0 : forall m tail,
              log m = log (entered self0 d) ++ tail ->
              filter is_sleep tail = [] ->
              count is_sleep (log m) = 0).
    { intros m tail Hm Ht. unfold count. rewrite Hm, filter_app, Ht.
      destruct (entered_log self0 d) as [t1 [t2 Hlog]]. rewrite Hlog.
      destruct (led self0); reflexivity. }
    unfold try_body, call.
    destruct (active_raises w) as [e|]; simpl andthen.
    { split; [discriminate|]. simpl fst.
      rewrite (H0 _ [BleActive true]); [lia|reflexivity|reflexivity]. }
    destruct (irq_raises w) as [e|]; simpl andthen.
    { split; [discriminate|]. simpl fst.
      rewrite (H0 _ [BleActive true; BleIrq]);
        [lia|simpl; rewrite <- app_assoc; reflexivity|reflexivity]. }
    set (m3 := emit (GapScan (d * 1000) 30000 30000)
                 (print_noend "Scanning"
                    (emit BleIrq (emit (BleActive true) (entered self0 d))))).
    assert (H3 : count is_sleep (log m3) = 0).
    { apply (H0 m3 [BleActive true; BleIrq; Stdout "Scanning";
                    GapScan (d * 1000) 30000 30000]); [|reflexivity].
      unfold m3. simpl. rewrite <- !app_assoc. reflexivity. }
    destruct (gap_scan_raises w) as [e|]; simpl andthen.
    { split; [discriminate|]. fold m3. simpl fst. rewrite H3. lia. }
    fold m3.
    destruct (@wait_loop_bounded w d (ticks_ms w 0) K fuel 0 m3 Hlate Hfuel)
      as [Hw Hc].
    destruct (wait_loop fuel w d (ticks_ms w 0) 0 m3) as [m4 [| | |]];
      cbn [andthen fst snd] in Hw, Hc |- *; try (split; [discriminate|lia]).
    - split; [discriminate|]. rewrite count_print. lia.
    - exfalso. apply Hw. reflexivity. }
  destruct Hbody as [Hst Hc].
  set (body := except_Exception (try_body fuel w d (entered self0 d))).
  assert (Hst' : snd body <> Stalls).
  { intros H. apply (proj1 (except_Stalls _)) in H. exact (Hst H). }
  assert (Hc' : count is_sleep (log (fst body)) <= K).
  { unfold count, body. rewrite silent_except by reflexivity. exact Hc. }
  destruct (@finally_log w body Hst') as [Hlog [_ Hsnd]].
  unfold r. rewrite scan_devices_unfold. fold body.
  destruct (finally w body) as [m st]. simpl in Hlog, Hsnd. subst st.
  assert (Hm : count is_sleep (log m) <= K).
  { unfold count in *. rewrite Hlog, filter_app, length_app.
    unfold teardown_actions. destruct (led (self (fst body))); simpl; lia. }
  destruct (snd body); try (split; [discriminate|exact Hm]).
  exfalso. apply Hst'. reflexivity.
Qed.

Lemma deadline_bounds_the_wait_witness :
  snd (scan_devices 40 silent_radio fresh 1) <> Diverge
  /\ count is_sleep (log (fst (scan_devices 40 silent_radio fresh 1))) <= 31.
Proof.
  apply (@deadline_bounds_the_wait 40 silent_radio fresh 1 31).
  - reflexivity.
  - lia.
Defined.

Module WaitFacts.

Lemma gathered_first (w : world) (j k : nat) :
  gathered w j (S k) = fst (sleep w j) ++ gathered w (S j) k.
Proof. reflexivity. Qed.

Lemma gathered_last (w : world) (k : nat) :
  forall j, gathered w j (S k) = gathered w j k ++ fst (sleep w (j + k)).
Proof.
  induction k as [|k IH]; intros j.
  - unfold gathered. simpl. rewrite Nat.add_0_r, app_nil_r. reflexivity.
  - rewrite gathered_first, IH, gathered_first, <- app_assoc.
    replace (S j + k) with (j + S k) by lia. reflexivity.
Qed.

Lemma irq_never_prints_timeout (self : scanner) (event : Z) (data : report) :
  ~ In timeout_text (snd (_irq self event data)).
Proof.
  unfold _irq. destruct (event =? 5)%Z.
  - destruct (negb _); [|simpl; tauto].
    simpl. destruct (r_rssi data >? -60)%Z; simpl;
      intros [H|H]; try discriminate H; try tauto.
    destruct H as [H|[]]. discriminate H.
  - destruct (event =? 6)%Z; simpl; tauto.
Qed.

Lemma deliver_never_prints_timeout (events : list (Z * report)) :
  forall self : scanner, ~ In timeout_text (snd (deliver self events)).
Proof.
  induction events as [|[event data] rest IH]; intros self; [simpl; tauto|].
  rewrite deliver_snd_cons. rewrite in_app_iff. intros [H|H].
  - exact (irq_never_prints_timeout _ _ _ H).
  - exact (IH _ H).
Qed.

Lemma suspended_self (events : list (Z * report)) (m : machine) :
  self (suspended events (emit (SleepMs 100) m))
  = fst (deliver (self m) events).
Proof.
  unfold suspended. simpl self.
  destruct (deliver (self m) events) as [s out]. reflexivity.
Qed.

Lemma suspended_no_timeout (events : list (Z * report)) (m : machine) :
  ~ In (Stdout timeout_text) (log m) ->
  ~ In (Stdout timeout_text) (log (suspended events (emit (SleepMs 100) m))).
Proof.
  intros Hm. unfold suspended. simpl self.
  pose proof (deliver_never_prints_timeout events (self m)) as Hd.
  destruct (deliver (self m) events) as [s out]. simpl in Hd |- *.
  rewrite !in_app_iff. intros [[H|H]|H].
  - exact (Hm H).
  - destruct H as [H|[]]. discriminate H.
  - apply in_map_iff in H. destruct H as [x [Hx Hin]].
    injection Hx as ->. exact (Hd Hin).
Qed.

(** [k] passes of the wait loop during which nothing ends the wait: the
    loop has slept [k] times and the handler has seen the events of these
    sleeps. *)
Lemma wait_loop_passes (w : world) (d : Z) (k : nat) :
  forall (fuel j : nat) (m : machine),
    scan_complete (self m) = false ->
    (forall i, i < k -> late w d (j + i) = false /\ quiet w (j + i)) ->
    exists m',
      wait_loop (k + fuel) w d (ticks_ms w 0) j m
      = wait_loop fuel w d (ticks_ms w 0) (j + k) m'
      /\ self m' = fst (deliver (self m) (gathered w j k))
      /\ scan_complete (self m') = false
      /\ count is_sleep (log m') = count is_sleep (log m) + k
      /\ (~ In (Stdout timeout_text) (log m) ->
          ~ In (Stdout timeout_text) (log m'))
      /\ no_teardown m m'.
Proof.
  induction k as [|k IH]; intros fuel j m Hsc Hquiet.
  - exists m. rewrite !Nat.add_0_r. simpl.
    repeat split; auto.
  - destruct (Hquiet 0 ltac:(lia)) as [Hlate [Hnone Hev]].
    rewrite Nat.add_0_r in Hlate, Hnone, Hev.
    set (m1 := suspended (fst (sleep w j)) (emit (SleepMs 100) m)).
    assert (Hself1 : self m1 = fst (deliver (self m) (fst (sleep w j))))
      by apply suspended_self.
    assert (Hsc1 : scan_complete (self m1) = false).
    { rewrite Hself1, deliver_not_done; [exact Hsc|exact Hev]. }
    destruct (IH fuel (S j) m1 Hsc1) as [m' [Hrun [Hself [Hsc' [Hc [Hno Hnt]]]]]].
    { intros i Hi. specialize (Hquiet (S i) ltac:(lia)).
      replace (S j + i) with (j + S i) by lia. exact Hquiet. }
    exists m'. split; [|split; [|split; [|split; [|split]]]].
    + change (S k + fuel) with (S (k + fuel)). cbn [wait_loop].
      rewrite Hsc. cbn [negb]. unfold late in Hlate. rewrite Hlate.
      destruct (sleep w j) as [events interrupt] eqn:Hsleep.
      simpl in Hnone. subst interrupt. simpl fst in m1. fold m1.
      rewrite Hrun. replace (S j + k) with (j + S k) by lia. reflexivity.
    + rewrite Hself, Hself1, gathered_first. symmetry. apply deliver_app.
    + exact Hsc'.
    + rewrite Hc. unfold m1. rewrite count_suspended. lia.
    + intros Hm. apply Hno. apply suspended_no_timeout. exact Hm.
    + eapply no_teardown_trans; [|exact Hnt].
      apply no_teardown_trans with (m2 := emit (SleepMs 100) m);
        [apply no_teardown_emit; reflexivity|apply no_teardown_suspended].
Qed.

(** The machine when the wait begins, the radio having started. *)
Lemma try_body_started (fuel : nat) (w : world) (d : Z) (m : machine) :
  start_error w = None ->
  exists m3,
    try_body fuel w d m
    = andthen (wait_loop fuel w d (ticks_ms w 0) 0 m3) (fun m4 =>
        (print (nl ++ nl ++ "Scan complete! Found "
                  ++ str_int (Z.of_nat (length (devices_found (self m4))))
                  ++ " unique devices") m4, Falls))
    /\ self m3 = self m
    /\ log m3 = log m ++ [BleActive true; BleIrq; Stdout "Scanning";
                          GapScan (d * 1000) 30000 30000].
Proof.
  unfold start_error. intros H.
  destruct (active_raises w) eqn:Ha; [discriminate|].
  destruct (irq_raises w) eqn:Hi; [discriminate|].
  exists (emit (GapScan (d * 1000) 30000 30000)
            (print_noend "Scanning" (emit BleIrq (emit (BleActive true) m)))).
  split; [|split].
  - unfold try_body. rewrite Ha, Hi, H. reflexivity.
  - reflexivity.
  - simpl. rewrite <- !app_assoc. reflexivity.
Qed.

End WaitFacts.

Module WaitResults.
Import WaitFacts.

Lemma entered_no_timeout (self0 : scanner) (d : Z) :
  ~ In (Stdout timeout_text) (log (entered self0 d)).
Proof.
  unfold entered. simpl. destruct (led self0); simpl;
    intros H; repeat (destruct H as [H|H]; [discriminate H|]); exact H.
Qed.

(** The session up to and including its [k]-th sleep, when nothing ends the
    wait before. *)
Lemma wait_reaches (fuel : nat) (w : world) (self0 : scanner) (d : Z)
  (k : nat) :
  start_error w = None ->
  (forall i, i < k -> late w d i = false /\ quiet w i) ->
  late w d k = false ->
  exists m2,
    try_body (k + S fuel) w d (entered self0 d)
    = andthen
        (match snd (sleep w k) with
         | Some e => (m2, Throws e)
         | None => wait_loop fuel w d (ticks_ms w 0) (S k) m2
         end)
        (fun m4 =>
           (print (nl ++ nl ++ "Scan complete! Found "
                     ++ str_int (Z.of_nat (length (devices_found (self m4))))
                     ++ " unique devices") m4, Falls))
    /\ self m2 = fst (deliver (cleared self0) (gathered w 0 (S k)))
    /\ count is_sleep (log m2) = S k
    /\ ~ In (Stdout timeout_text) (log m2)
    /\ no_teardown (entered self0 d) m2.
Proof.
  intros Hstart Hquiet Hlate.
  destruct (@try_body_started (k + S fuel) w d (entered self0 d) Hstart)
    as [m3 [Hbody [Hself3 Hlog3]]].
  assert (Hsc3 : scan_complete (self m3) = false)
    by (rewrite Hself3, entered_self; reflexivity).
  destruct (@wait_loop_passes w d k (S fuel) 0 m3 Hsc3 Hquiet)
    as [m' [Hrun [Hself [Hsc [Hc [Hno Hnt]]]]]].
  exists (suspended (fst (sleep w k)) (emit (SleepMs 100) m')).
  split; [|split; [|split; [|split]]].
  - rewrite Hbody, Hrun. cbn [wait_loop Nat.add].
    rewrite Hsc. cbn [negb]. unfold late in Hlate. rewrite Hlate.
    destruct (sleep w k) as [events [e|]]; reflexivity.
  - rewrite suspended_self, Hself, Hself3, entered_self.
    rewrite gathered_last. symmetry. apply deliver_app.
  - rewrite count_suspended, Hc. unfold count. rewrite Hlog3, filter_app.
    destruct (entered_log self0 d) as [t1 [t2 Hlog]]. rewrite Hlog.
    destruct (led self0); reflexivity.
  - apply suspended_no_timeout. apply Hno. rewrite Hlog3, in_app_iff.
    intros [H|H]; [exact (entered_no_timeout _ _ H)|].
    simpl in H. repeat (destruct H as [H|H]; [discriminate H|]). exact H.
  - apply no_teardown_trans with (m2 := m3).
    + split; [|rewrite Hself3; reflexivity].
      rewrite Hlog3, filter_app. simpl. apply app_nil_r.
    + eapply no_teardown_trans; [exact Hnt|].
      apply no_teardown_trans with (m2 := emit (SleepMs 100) m');
        [apply no_teardown_emit; reflexivity|apply no_teardown_suspended].
Qed.

End WaitResults.

Import WaitFacts WaitResults.

(** X13.  When the radio has started and the first scan-done event arrives
    during the [k]-th sleep, before the deadline and before any interrupt,
    [scan_devices] returns after exactly [k + 1] sleeps, without the
    timeout message, and the registry it returns is what the handler makes
    of the events of these sleeps, starting from an empty registry: results
    of an earlier scan are gone, and the events that came in the same sleep
    as the scan-done event are counted in. *)
Theorem scan_ends_when_done_arrives (fuel : nat) (w : world)
  (self0 : scanner) (d : Z) (k : nat) :
  start_error w = None ->
  (forall i, i < k -> late w d i = false /\ quiet w i) ->
  late w d k = false ->
  snd (sleep w k) = None ->
  existsb is_done (fst (sleep w k)) = true ->
  S k < fuel ->
  let r := scan_devices fuel w self0 d in
  let final := fst (deliver (cleared self0) (gathered w 0 (S k))) in
  snd r = Return (devices_found final)
  /\ Session.self (fst r) = final
  /\ scan_complete final = true
  /\ count is_sleep (log (fst r)) = S k
  /\ ~ In (Stdout timeout_text) (log (fst r)).
Proof.
  intros Hstart Hquiet Hlate Hnone Hdone Hfuel.
  remember (fuel - S (S k)) as f eqn:Hf.
  assert (Hfuel' : fuel = k + S (S f)) by lia.
  clear Hf Hfuel. subst fuel. intros r final.
  assert (Hflag : scan_complete final = true).
  { unfold final. rewrite gathered_last, deliver_app, deliver_flag.
    simpl. rewrite Hdone. apply orb_true_r. }
  destruct (@wait_reaches (S f) w self0 d k Hstart Hquiet Hlate)
    as [m2 [Hbody [Hself [Hc [Hno _]]]]].
  fold final in Hself.
  rewrite Hnone in Hbody. cbn [wait_loop] in Hbody.
  rewrite Hself, Hflag in Hbody. cbn [negb andthen] in Hbody.
  assert (Hr : r = scan_devices (k + S (S f)) w self0 d) by reflexivity.
  rewrite scan_devices_unfold, Hbody in Hr.
  unfold except_Exception, finally, call in Hr.
  split; [|split; [|split; [|split]]].
  - rewrite Hr. destruct (gap_stop_raises w);
      cbn [fst snd self print emit]; destruct (led (self m2));
      cbn [fst snd self print emit]; rewrite Hself; reflexivity.
  - rewrite Hr. destruct (gap_stop_raises w);
      cbn [fst snd self print emit]; destruct (led (self m2));
      cbn [fst snd self print emit]; exact Hself.
  - exact Hflag.
  - rewrite Hr. unfold count in *. destruct (gap_stop_raises w);
      cbn [fst snd self log print emit]; destruct (led (self m2));
      cbn [fst snd self log print emit];
      rewrite !filter_app, !length_app; simpl; lia.
  - rewrite Hr. destruct (gap_stop_raises w);
      cbn [fst snd self log print emit]; destruct (led (self m2));
      cbn [fst snd self log print emit];
      rewrite !in_app_iff; simpl;
      intros H; repeat (destruct H as [H|H]); try discriminate H;
      try tauto.
Qed.

(** X14.  When the radio has started and the [k]-th sleep is the first to
    be interrupted, before the deadline and before any scan-done event,
    the teardown runs and the registry holds what the handler made of the
    events up to that sleep.  An interrupt that is an [Exception] is
    swallowed and this partial registry is returned; a keyboard interrupt
    or a cancellation reaches the caller. *)
Theorem interrupt_during_the_wait (fuel : nat) (w : world)
  (self0 : scanner) (d : Z) (k : nat) (e : exn) :
  start_error w = None ->
  (forall i, i < k -> late w d i = false /\ quiet w i) ->
  late w d k = false ->
  snd (sleep w k) = Some e ->
  k < fuel ->
  let r := scan_devices fuel w self0 d in
  let final := fst (deliver (cleared self0) (gathered w 0 (S k))) in
  Session.self (fst r) = final
  /\ (is_Exception e = true -> snd r = Return (devices_found final))
  /\ (is_Exception e = false -> snd r = Raise e)
  /\ exists before,
       log (fst r) = before ++ teardown_actions (led self0)
       /\ filter teardown before = [].
Proof.
  intros Hstart Hquiet Hlate Hint Hfuel.
  remember (fuel - S k) as f eqn:Hf.
  assert (Hfuel' : fuel = k + S f) by lia.
  clear Hf Hfuel. subst fuel. intros r final.
  destruct (@wait_reaches f w self0 d k Hstart Hquiet Hlate)
    as [m2 [Hbody [Hself [_ [_ _]]]]].
  fold final in Hself.
  rewrite Hint in Hbody. cbn [andthen] in Hbody.
  assert (Hr : r = scan_devices (k + S f) w self0 d) by reflexivity.
  assert (Hr' := Hr). rewrite scan_devices_unfold, Hbody in Hr'.
  unfold except_Exception, finally, call in Hr'.
  assert (Hout : snd r = if is_Exception e then Return (devices_found final)
                         else Raise e).
  { rewrite Hr'. destruct (is_Exception e); destruct (gap_stop_raises w);
      cbn [fst snd self print emit]; destruct (led (self m2));
      cbn [fst snd self print emit]; rewrite ?Hself; reflexivity. }
  split; [|split; [|split]].
  - rewrite Hr'. destruct (is_Exception e); destruct (gap_stop_raises w);
      cbn [fst snd self print emit]; destruct (led (self m2));
      cbn [fst snd self print emit]; exact Hself.
  - intros He. rewrite Hout, He. reflexivity.
  - intros He. rewrite Hout, He. reflexivity.
  - rewrite Hr. apply scan_devices_log. rewrite <- Hr, Hout.
    destruct (is_Exception e); discriminate.
Qed.

Lemma scan_ends_when_done_arrives_witness :
  snd (scan_devices 5 finishing_radio fresh 10)
  = Return (devices_found
              (fst (deliver (cleared fresh) (gathered finishing_radio 0 2))))
  /\ count is_sleep (log (fst (scan_devices 5 finishing_radio fresh 10))) = 2.
Proof.
  destruct (@scan_ends_when_done_arrives 5 finishing_radio fresh 10 1)
    as [H1 [_ [_ [H2 _]]]].
  - reflexivity.
  - intros i Hi. destruct i as [|i]; [|lia].
    split; [reflexivity|]. split; [reflexivity|].
    intros ev [H|[H|[]]]; subst ev; discriminate.
  - reflexivity.
  - reflexivity.
  - reflexivity.
  - lia.
  - split; [exact H1|exact H2].
Defined.

Example finishing_radio_finds_two_devices :
  map fst (devices_found
             (fst (deliver (cleared fresh) (gathered finishing_radio 0 2))))
  = ["AA:BB:CC:01:02:03"; "01:02:03:04:05:06"]%string.
Proof. vm_compute. reflexivity. Qed.

Lemma interrupt_during_the_wait_witness :
  snd (scan_devices 5 interrupted_radio fresh 10) = Raise KeyboardInterrupt.
Proof.
  apply (@interrupt_during_the_wait 5 interrupted_radio fresh 10 0
           KeyboardInterrupt).
  - reflexivity.
  - intros i Hi. lia.
  - reflexivity.
  - reflexivity.
  - lia.
  - reflexivity.
Defined.

Module ScansFacts.

Lemma scan_devices_failed_start (fuel : nat) (w : world) (self0 : scanner)
  (d : Z) (e : exn) :
  start_error w = Some e -> is_Exception e = true ->
  snd (scan_devices fuel w self0 d) = Return []
  /\ devices_found (self (fst (scan_devices fuel w self0 d))) = [].
Proof.
  intros He Hexc. rewrite scan_devices_unfold.
  destruct (@try_body_start_error fuel w d (entered self0 d) e He)
    as [Hs Hself].
  destruct (try_body fuel w d (entered self0 d)) as [m1 st].
  simpl in Hs, Hself. subst st.
  rewrite entered_self in Hself.
  unfold except_Exception. rewrite Hexc. unfold finally, call.
  destruct (gap_stop_raises w); cbn [fst snd self print emit];
    destruct (led (self m1)); cbn [fst snd self print emit];
    rewrite Hself; split; reflexivity.
Qed.

(** The service loop only ever appends to the list. *)
Lemma for_uuid128_appends (adv_data : bytes) (js : list nat) :
  forall services, exists more,
    for_uuid128 adv_data js services = services ++ more.
Proof.
  induction js as [|j js IH]; intros services.
  - exists []. simpl. rewrite app_nil_r. reflexivity.
  - simpl. destruct (j + 15 <? length adv_data); [|apply IH].
    destruct (IH (services ++ [uuid128_str (slice adv_data j (j + 16))]))
      as [more H].
    eexists. rewrite H, <- app_assoc. reflexivity.
Qed.

Lemma services_loop_appends (fuel : nat) (adv_data : bytes) :
  forall (i : nat) (services : list string), exists more,
    fst (services_loop fuel adv_data i services) = services ++ more.
Proof.
  induction fuel as [|fuel IH]; intros i services.
  - exists []. simpl. rewrite app_nil_r. reflexivity.
  - assert (Hsame : exists more : list string, services = services ++ more)
      by (exists []; rewrite app_nil_r; reflexivity).
    simpl. destruct (i <? length adv_data); [|exact Hsame].
    destruct (getitem adv_data i) as [n|]; [|exact Hsame].
    destruct (n =? 0); [exact Hsame|].
    destruct (getitem adv_data (i + 1)) as [t|]; [|exact Hsame].
    destruct ((t =? 2) || (t =? 3)).
    { destruct (for_uuid16_in_order adv_data (range (i + 2) (i + 1 + n) 2)
                  services) as [more1 [st H1]].
      rewrite H1. destruct st as [u|e].
      - destruct (IH (i + 1 + n) (services ++ more1)) as [more2 H2].
        exists (more1 ++ more2). rewrite H2, app_assoc. reflexivity.
      - exists more1. reflexivity. }
    destruct ((t =? 6) || (t =? 7)).
    { destruct (for_uuid128_appends adv_data (range (i + 2) (i + 1 + n) 16)
                  services) as [more1 H1].
      rewrite H1.
      destruct (IH (i + 1 + n) (services ++ more1)) as [more2 H2].
      exists (more1 ++ more2). rewrite H2, app_assoc. reflexivity. }
    apply IH.
Qed.

End ScansFacts.

Import ScansFacts.

(** X15.  On a radio that cannot be started (activation, registration of
    the handler or the scan command raises an [Exception]), each of
    [quick_scan], [standard_scan] and [long_scan] returns normally and the
    last thing it prints is "No devices found": the failure looks like an
    empty scan. *)
Theorem failed_start_reports_no_devices (fuel : nat) (b : board) (w : world)
  (e : exn) :
  start_error w = Some e -> is_Exception e = true ->
  Forall (fun scan : nat -> board -> world -> list action * outcome unit =>
            snd (scan fuel b w) = Return tt
            /\ exists before,
                 fst (scan fuel b w) = before ++ [say "No devices found"])
    [quick_scan; standard_scan; long_scan].
Proof.
  intros He Hexc.
  assert (H : forall report d,
            (forall self, devices_found self = [] ->
               report self = (["No devices found"%string], Return tt)) ->
            snd (scan_then report d fuel b w) = Return tt
            /\ exists before,
                 fst (scan_then report d fuel b w)
                 = before ++ [say "No devices found"]).
  { intros report d Hreport. unfold scan_then.
    destruct (__init__ b) as [scanner_ notes].
    destruct (@scan_devices_failed_start fuel w scanner_ d e He Hexc)
      as [Hout Hreg].
    destruct (scan_devices fuel w scanner_ d) as [m out].
    simpl in Hout, Hreg. subst out. rewrite (Hreport _ Hreg).
    split; [reflexivity|].
    exists (map say notes ++ log m). simpl. rewrite <- app_assoc.
    reflexivity. }
  assert (Hresults : forall self, devices_found self = [] ->
            print_results self = (["No devices found"%string], Return tt)).
  { intros self Hs. unfold print_results. rewrite Hs. reflexivity. }
  constructor; [|constructor; [|constructor; [|constructor]]].
  - apply H. intros self Hs. unfold print_summary. rewrite Hs. reflexivity.
  - apply H. exact Hresults.
  - apply H. exact Hresults.
Qed.

Lemma failed_start_reports_no_devices_witness :
  snd (quick_scan 0 plain_board dead_radio) = Return tt.
Proof.
  pose proof (@failed_start_reports_no_devices 0 plain_board dead_radio
                (OSError 19) eq_refl eq_refl) as H.
  apply Forall_inv in H. exact (proj1 H).
Defined.

Module StraddleFacts.

Lemma chunks_app_even (k : nat) :
  forall v w : bytes,
    length v = 2 * k ->
    chunks 2 (k + 1) (v ++ w) = chunks 2 k v ++ chunks 2 1 w.
Proof.
  induction k as [|k IH]; intros v w Hv.
  - destruct v; [reflexivity|discriminate Hv].
  - destruct v as [|a [|c v]]; try (simpl in Hv; lia).
    change (S k + 1) with (S (k + 1)).
    cbn [chunks]. simpl length.
    replace (2 <=? S (S (length (v ++ w)))) with true by reflexivity.
    replace (2 <=? S (S (length v))) with true by reflexivity.
    simpl firstn. simpl skipn. simpl app. f_equal.
    apply IH. simpl in Hv. lia.
Qed.

End StraddleFacts.

Import StraddleFacts.

(** X16.  A 16-bit UUID list whose value has an odd number of bytes is not
    cut at the end of the record: when the buffer goes on, the decoder
    pairs the last value byte [x] with the byte [y] that follows the
    record (the length byte of the next record) and reports it as one more
    UUID, after the whole UUIDs of the value. *)
Theorem odd_uuid_list_reads_the_next_byte (l t : byte) (v : bytes)
  (x y : byte) (rest : bytes) :
  uuid16_type t = true ->
  Byte.to_nat l = 1 + length (v ++ [x]) ->
  length v mod 2 = 0 ->
  exists more,
    _decode_services (l :: t :: v ++ x :: y :: rest)
    = Return (map uuid16_text (whole_chunks 2 v)
                ++ uuid16_text [x; y] :: more).
Proof.
  intros Ht Hl Hv.
  rewrite length_app in Hl. simpl in Hl.
  set (adv_data := l :: t :: v ++ x :: y :: rest).
  pose proof (Nat.div_mod_eq (length v) 2) as Hd. rewrite Hv in Hd.
  assert (Hacc : exists more,
            fst (services_loop (S (length adv_data)) adv_data 0 [])
            = map uuid16_text (whole_chunks 2 v)
                ++ uuid16_text [x; y] :: more).
  { cbn [services_loop].
    replace (0 <? length adv_data) with true by reflexivity.
    change (getitem adv_data 0) with (@Ok nat (Byte.to_nat l)).
    cbv beta iota.
    replace (Byte.to_nat l =? 0) with false
      by (symmetry; apply Nat.eqb_neq; lia).
    change (getitem adv_data (0 + 1)) with (@Ok nat (Byte.to_nat t)).
    cbv beta iota.
    unfold uuid16_type in Ht. rewrite DecoderFacts.is_type_two in Ht.
    rewrite Ht.
    rewrite DecoderFacts.range_count by lia.
    assert (Hn : (Byte.to_nat l - 1 + 2 - 1) / 2 = length v / 2 + 1).
    { symmetry. apply Nat.div_unique with (r := 0); lia. }
    rewrite Hn.
    assert (Hadv : adv_data = [l; t] ++ (v ++ [x; y]) ++ rest)
      by (unfold adv_data; simpl; rewrite <- app_assoc; reflexivity).
    rewrite Hadv.
    change (0 + 2) with (length [l; t]).
    rewrite DecoderFacts.for_uuid16_chunks
      by (left; rewrite length_app; change (length [x; y]) with 2; lia).
    cbv beta iota.
    rewrite chunks_app_even by lia.
    rewrite DecoderFacts.chunks_whole by lia.
    change (chunks 2 1 [x; y]) with [[x; y]].
    rewrite map_app.
    change (map uuid16_text [[x; y]]) with [uuid16_text [x; y]].
    rewrite app_nil_l.
    match goal with
    | |- context [services_loop ?f ?a ?i ?acc] =>
        destruct (services_loop_appends f a i acc) as [more Hmore]
    end.
    exists more. rewrite Hmore, <- app_assoc. reflexivity. }
  destruct Hacc as [more Hacc]. exists more.
  destruct (decode_services_returns adv_data) as [s Hs].
  rewrite Hs. f_equal. rewrite <- Hacc.
  unfold _decode_services in Hs.
  destruct (services_loop (S (length adv_data)) adv_data 0 []) as [s' st].
  destruct st; simpl; congruence.
Qed.

Lemma odd_uuid_list_reads_the_next_byte_witness :
  exists more,
    _decode_services (encode_record odd_list ++ encode [flags])
    = Return (["0x180A"; "0x02FF"]%string ++ more).
Proof.
  destruct (@odd_uuid_list_reads_the_next_byte x04 x03 [x0a; x18] xff x02
              [x01; x06]) as [more H]; [reflexivity|reflexivity|reflexivity|].
  exists more. exact H.
Defined.

Module ContinuousFacts.

Lemma say_not_radio (lines : list string) :
  filter is_radio (map say lines) = [].
Proof. induction lines as [|s lines IH]; [reflexivity|exact IH]. Qed.

(** A session that ends leaves the radio stopped. *)
Lemma session_ends_stopped (fuel : nat) (w : world) (self0 : scanner)
  (d : Z) :
  snd (scan_devices fuel w self0 d) <> Diverge ->
  filter is_radio (log (fst (scan_devices fuel w self0 d)))
  = start_calls w d ++ [GapScanNone].
Proof.
  intros Hend. rewrite scan_devices_filter by reflexivity.
  assert (H1 : filter is_radio (if led self0 then [LedOn] else []) = [])
    by (destruct (led self0); reflexivity).
  assert (H2 : filter is_radio (start_calls w d) = start_calls w d).
  { unfold start_calls. destruct (active_raises w); [reflexivity|].
    destruct (irq_raises w); reflexivity. }
  assert (H3 : filter is_radio (teardown_actions (led self0)) = [GapScanNone])
    by (destruct (led self0); reflexivity).
  rewrite H1, H2, H3.
  destruct (snd (scan_devices fuel w self0 d)); try reflexivity.
  exfalso. apply Hend. reflexivity.
Qed.

(** The loop never ends by itself; when an exception ends it, the last
    radio call was the stop command. *)
Lemma continuous_loop_ends (rounds fuel : nat) (sch : schedule) :
  forall (i : nat) (scanner_ : scanner),
    match snd (continuous_loop rounds fuel sch i scanner_) with
    | Throws _ =>
        exists calls,
          filter is_radio (fst (continuous_loop rounds fuel sch i scanner_))
          = calls ++ [GapScanNone]
    | Stalls => True
    | _ => False
    end.
Proof.
  induction rounds as [|rounds IH]; intros i scanner_; [exact I|].
  cbn [continuous_loop].
  pose proof (@session_ends_stopped fuel (round_world sch i) scanner_ 10)
    as Hstop.
  destruct (scan_devices fuel (round_world sch i) scanner_ 10) as [m out].
  cbn [fst snd] in Hstop.
  destruct out as [reg|e|].
  - assert (Hout : filter is_radio
              (say (nl ++ repeat_str "-" 25 ++ " New Scan "
                       ++ repeat_str "-" 25)
               :: log m ++ map say (print_summary (self m))
                    ++ [say (nl ++ "Waiting 15 seconds...")])
            = start_calls (round_world sch i) 10 ++ [GapScanNone]).
    { cbn [filter say is_radio]. rewrite !filter_app, say_not_radio.
      cbn [filter say is_radio]. rewrite !app_nil_r.
      apply Hstop. discriminate. }
    destruct (pause_raises sch i) as [e|].
    + cbn [fst snd]. eexists. exact Hout.
    + specialize (IH (S i) (self m)).
      destruct (continuous_loop rounds fuel sch (S i) (self m)) as [more st].
      cbn [fst snd] in IH |- *.
      destruct st; try exact IH.
      destruct IH as [calls Hcalls].
      exists (start_calls (round_world sch i) 10 ++ [GapScanNone] ++ calls).
      rewrite filter_app, Hout, Hcalls, <- !app_assoc. reflexivity.
  - cbn [fst snd]. exists (start_calls (round_world sch i) 10).
    cbn [filter say is_radio]. apply Hstop. discriminate.
  - exact I.
Qed.

End ContinuousFacts.

Import ContinuousFacts.

(** X17.  [continuous_scan] never ends by itself and never passes a
    keyboard interrupt on: it returns only when a keyboard interrupt ended
    a scan or a pause, and then the last thing printed is "Stopped
    continuous scanning".  Whenever it ends, by returning or by raising
    another exception, the last call made on the radio is the stop
    command. *)
Theorem continuous_scan_ends_stopped (rounds fuel : nat) (b : board)
  (sch : schedule) :
  let r := continuous_scan rounds fuel b sch in
  snd r <> Raise KeyboardInterrupt
  /\ (snd r = Return tt ->
      exists before,
        fst r = before ++ [say (nl ++ "Stopped continuous scanning")])
  /\ (snd r <> Diverge ->
      exists calls, filter is_radio (fst r) = calls ++ [GapScanNone]).
Proof.
  intros r. unfold r, continuous_scan.
  destruct (__init__ b) as [scanner_ notes].
  pose proof (continuous_loop_ends rounds fuel sch 0 scanner_) as H.
  destruct (continuous_loop rounds fuel sch 0 scanner_) as [out st].
  cbn [fst snd] in H.
  assert (Hopen : forall tail,
            filter is_radio
              ((map say notes
                  ++ [say "Continuous BLE scanning - Press Ctrl+C to stop"])
                 ++ tail)
            = filter is_radio tail).
  { intros tail. rewrite !filter_app, say_not_radio. reflexivity. }
  destruct st as [|u|e|]; try contradiction.
  - destruct H as [calls Hcalls].
    destruct e; cbn [fst snd];
      (split; [discriminate|]);
      (split; [try discriminate|]);
      try (intros _; exists calls; rewrite Hopen; exact Hcalls).
    + intros _. eexists. rewrite app_assoc. reflexivity.
    + intros _. exists calls. rewrite Hopen, filter_app, Hcalls.
      cbn [filter say is_radio]. apply app_nil_r.
  - cbn [fst snd]. split; [discriminate|]. split; [discriminate|].
    intros Hd. exfalso. apply Hd. reflexivity.
Qed.
